(** * dodge-server: the room/session state machine of [server.js]

A shallow embedding of the WebSocket relay server and the proofs of the
properties its specification states.

Modelling conventions.
- A JavaScript object used as a dictionary ([players], [level_wins],
  [death_placeholders]) is an ordered list of entries.  The entries under a
  key other than [__proto__] are its own properties, in the order
  [Object.keys] enumerates them: keys that are array indices first,
  ascending, then the other keys by insertion.  An entry under [__proto__]
  is the object assigned to the dictionary through that key, which becomes
  its prototype: it is no own property, [Object.keys], [Object.values],
  [Object.entries] and [delete] do not see it, a read of [__proto__]
  returns it.
- A read [o[k]] that finds no own property goes on to the prototype: to the
  fields of the object assigned through [__proto__], then to the members of
  [Object.prototype] (eleven functions and [__proto__] itself).  The
  handlers that read this way are modelled with what they find
  ([players_at], [placeholder_at], [wins_at]).
- A handler that assigns a property of [Object.prototype] itself changes
  every object of the process.  The model does not follow a run beyond such
  a step: the outcome is [Escapes], and a world of the model is a state of
  the process in which [Object.prototype] is as the runtime made it.
- [rooms] is never enumerated, it is a [gmap]; its keys are codes made of
  the characters of [chars] or results of [toUpperCase], none of which is a
  member of [Object.prototype].  The two [Set]s are [gset]s (only [add],
  [delete] and [size] are used by the server).
- The closure variables [playerRoomCode] and [playerId] of one connection
  are a [session].
- An inbound frame is JSON text.  [room_code] is a string, absent, or of
  another type; the other fields that are not ids are arbitrary JSON values
  that the server only hands on.  The ids, [player_name] and [target_id],
  have the type of the protocol, a string ([player_name] possibly absent or
  falsy); what the server makes of an id of another type depends on how
  numbers are printed and on the identity of parsed objects, and is not
  modelled: the outcome of such a frame is [Escapes].
- [Math.random], [ws.readyState] and the case mapping of the runtime outside
  ASCII belong to the environment of a step.
- Counters are mathematical integers ([current_level++] on a double is
  exact far beyond any value a run reaches). *)

From Stdlib Require Import ZArith Ascii String.
From stdpp Require Import gmap strings list fin_maps pretty.

Local Open Scope string_scope.
Local Open Scope list_scope.

(** ** JSON values handed through the server *)

#[local] Set Warnings "-register-all".

Inductive value : Type :=
  | VUndefined                      (* the field is absent *)
  | VNull
  | VBool (b : bool)
  | VNum (z : Z)                    (* a number whose value is the integer z *)
  | VFrac (m : Z) (k : positive)    (* a number that is no integer: m / 2^k *)
  | VStr (s : string)
  | VArr (items : list value)
  | VObj (fields : list (string * value)).

(** ToBoolean *)
Definition truthy (v : value) : bool :=
  match v with
  | VUndefined | VNull => false
  | VBool b => b
  | VNum z => negb (Z.eqb z 0)
  | VFrac m _ => negb (Z.eqb m 0)
  | VStr s => negb (String.eqb s "")
  | VArr _ | VObj _ => true
  end.

(** [null] and [undefined]: a property of these cannot be read or written. *)
Definition nullish (v : value) : bool :=
  match v with
  | VUndefined | VNull => true
  | _ => false
  end.

Fixpoint field_of (k : string) (fields : list (string * value)) : value :=
  match fields with
  | [] => VUndefined
  | (k', v) :: rest => if String.eqb k k' then v else field_of k rest
  end.

(** [v.x] and [v.y] of a value that is not nullish: the own field of an
    object; nothing else has a property of these names. *)
Definition field (k : string) (v : value) : value :=
  match v with
  | VObj fields => field_of k fields
  | _ => VUndefined
  end.

(** [v || d] *)
Definition or_else (v d : value) : value := if truthy v then v else d.

(** [s || d] for an optional string field *)
Definition str_or_else (s : option string) (d : string) : string :=
  match s with
  | Some x => if String.eqb x "" then d else x
  | None => d
  end.

Definition upper_ascii (a : ascii) : ascii :=
  let n := N_of_ascii a in
  if ((97 <=? n) && (n <=? 122))%N then ascii_of_N (n - 32) else a.

(** [String.prototype.toUpperCase] on a string of ASCII characters *)
Fixpoint toUpperCase (s : string) : string :=
  match s with
  | EmptyString => EmptyString
  | String a s' => String (upper_ascii a) (toUpperCase s')
  end.

(** ** Objects as ordered dictionaries *)

Module Obj.

Definition t (V : Type) : Type := list (string * V).

Definition proto_key : string := "__proto__".

(** The key that names the prototype instead of an own property. *)
Definition hidden (k : string) : bool := String.eqb k proto_key.

Definition digit_of (a : ascii) : option N :=
  let n := N_of_ascii a in
  if ((48 <=? n) && (n <=? 57))%N then Some (n - 48)%N else None.

Fixpoint parse_digits (s : string) (acc : N) : option N :=
  match s with
  | EmptyString => Some acc
  | String a s' =>
      match digit_of a with
      | Some d => parse_digits s' (acc * 10 + d)%N
      | None => None
      end
  end.

(** A key is an array index when it is the canonical decimal form of an
    integer below 2^32 - 1. *)
Definition array_index (k : string) : option N :=
  match k with
  | EmptyString => None
  | String a rest =>
      if Ascii.eqb a "0" && negb (String.eqb rest "") then None
      else match parse_digits k 0 with
           | Some n => if (n <? 4294967295)%N then Some n else None
           | None => None
           end
  end.

Section Ops.
Context {V : Type}.

(** The entry under a key, own property or prototype. *)
Fixpoint lookup (k : string) (o : t V) : option V :=
  match o with
  | [] => None
  | (k', v) :: o' => if String.eqb k k' then Some v else lookup k o'
  end.

(** The own property under [k]. *)
Definition get (k : string) (o : t V) : option V :=
  if hidden k then None else lookup k o.

(** The object assigned through [__proto__]. *)
Definition proto (o : t V) : option V := lookup proto_key o.

(** [Object.prototype.hasOwnProperty] *)
Definition has (k : string) (o : t V) : bool :=
  match get k o with Some _ => true | None => false end.

(** The keys of all entries, the one under [__proto__] included. *)
Definition raw_keys (o : t V) : list string := o.*1.

(** [Object.entries], [Object.keys], [Object.values] *)
Definition entries (o : t V) : list (string * V) :=
  List.filter (fun kv => negb (hidden (fst kv))) o.

Definition keys (o : t V) : list string := (entries o).*1.
Definition values (o : t V) : list V := (entries o).*2.

Fixpoint replace (k : string) (v : V) (o : t V) : t V :=
  match o with
  | [] => []
  | (k', v') :: o' =>
      if String.eqb k k' then (k, v) :: o' else (k', v') :: replace k v o'
  end.

(** A new array-index key goes before the first key that is a larger
    index or no index at all. *)
Fixpoint insert_index (n : N) (k : string) (v : V) (o : t V) : t V :=
  match o with
  | [] => [(k, v)]
  | (k', v') :: o' =>
      match array_index k' with
      | Some m =>
          if (m <? n)%N then (k', v') :: insert_index n k v o'
          else (k, v) :: o
      | None => (k, v) :: o
      end
  end.

(** [o[k] = v] for an object [v]: under [__proto__] the prototype is set,
    under another key the own property. *)
Definition set (k : string) (v : V) (o : t V) : t V :=
  match lookup k o with
  | Some _ => replace k v o
  | None =>
      match array_index k with
      | Some n => insert_index n k v o
      | None => o ++ [(k, v)]
      end
  end.

Fixpoint remove (k : string) (o : t V) : t V :=
  match o with
  | [] => []
  | (k', v) :: o' =>
      if String.eqb k k' then remove k o' else (k', v) :: remove k o'
  end.

(** [delete o[k]]: it takes away an own property and nothing else. *)
Definition del (k : string) (o : t V) : t V :=
  if hidden k then o else remove k o.

(** The same keys, the value of each own property changed in place. *)
Definition map_values (f : V -> V) (o : t V) : t V :=
  (fun kv => if hidden (fst kv) then kv else (fst kv, f (snd kv))) <$> o.

End Ops.

End Obj.

(** The functions every object inherits from [Object.prototype]. *)
Definition object_prototype_functions : list string :=
  [ "constructor"; "__defineGetter__"; "__defineSetter__"; "hasOwnProperty";
    "__lookupGetter__"; "__lookupSetter__"; "isPrototypeOf";
    "propertyIsEnumerable"; "toString"; "valueOf"; "toLocaleString" ].

Definition is_function_name (k : string) : bool :=
  bool_decide (k ∈ object_prototype_functions).

(** ** Data model *)

Definition conn : Type := nat.

Record player : Type := mkPlayer {
  ws : conn;
  name : string;
  ready : value;
  alive : bool;
  position : Z * Z;
  color : value
}.

(** A value of [level_wins]: a count, or the text that [+ 1] makes of a
    function of [Object.prototype] (the source text of the function [fn]
    followed by [ones] digits 1). *)
Inductive win : Type :=
  | WNum (n : Z)
  | WText (fn : string) (ones : nat).

Record room : Type := mkRoom {
  host : string;
  players : Obj.t player;
  started : bool;
  current_level : Z;
  level_wins : Obj.t win;
  ready_players : gset string;
  finished_players : gset string;
  death_placeholders : Obj.t (value * value)
}.

(** The two closure variables of a connection.  [playerRoomCode] is assigned
    only after [playerId] has been given a string, and neither goes back to
    [null]. *)
Inductive session : Type :=
  | Unbound (playerId : option string)
  | Bound (playerRoomCode : string) (playerId : string).

(** What [JSON.parse] makes of a frame, by what the [switch] and the handler
    see of it. *)
Inductive in_msg : Type :=
  | create_room (player_name : option string) (color : value)
  | join_room (room_code : option string) (player_name : option string)
      (color : value)
  | join_room_bad_code    (* [room_code] is truthy and no string *)
  | player_ready (ready : value)
  | start_game
  | player_position (x y : value)
  | player_died (x y : value)
  | revive_player (target_id : string)
  | player_finished
  | lobby_position (x y : value)
  | unrecognized          (* any other [type], or a frame that is no object *)
  | null_frame            (* the text [null] *)
  | malformed             (* [JSON.parse] throws *)
  | ill_typed             (* a frame of one of the types above whose
                             [player_name] is truthy and no string, or whose
                             [target_id] is no string *).

Inductive out_msg : Type :=
  | room_created (room_code player_id : string) (is_host : bool)
  | room_joined (room_code player_id : string) (is_host : bool)
      (players : Obj.t (string * value * value)) (host : string)
  | player_joined (player_id player_name : string) (color : value)
  | error (message : string)
  | player_ready_update (player_id : string) (ready : value)
      (ready_count total_count : nat)
  | game_start (level : Z) (players : Obj.t (string * value))
      (your_id : string)
  | player_moved (player_id : string) (x y : value)
  | out_player_died (player_id : string) (x y : value)
  | you_died (x y : value)
  | player_revived (revived_id reviver_id : string) (x y : value)
  | out_player_finished (player_id : string) (is_first : bool)
      (finished_count total_count : nat) (level_wins : Obj.t win)
  | next_level (level : Z) (level_wins : Obj.t win)
  | game_over (level_wins : Obj.t win)
  | lobby_player_moved (player_id : string) (x y : value)
  | player_left (player_id : string)
  | new_host (host_id : string).

(** A frame written to a socket. *)
Definition sent : Type := conn * out_msg.

Record world : Type := mkWorld {
  rooms : gmap string room;
  sessions : gmap conn session;
  timers : list conn;
  closed : gset conn
}.

(** What a step takes from outside: which sockets are [OPEN]; what
    [Math.random] yields for the room code attempts (one function per turn of
    the do-while loop, giving the scaled draw of each of the four characters,
    for as many turns as the environment is asked for) and for the default
    name of [join_room]; the case mapping of the runtime,
    [String.prototype.toUpperCase].  The mapping of a runtime leaves no
    lower-case ASCII letter in its result, so the server's [toUpperCase()] is
    the mapping followed by [toUpperCase] of this file, which then changes
    nothing. *)
Record env : Type := mkEnv {
  is_open : conn -> bool;
  code_draws : list (nat -> nat);
  name_draw : nat;
  unicode_upper : string -> string
}.

(** How a handler ends: it returns; it throws a [TypeError]; the do-while
    loop of [create_room] is still turning after the draws the environment
    supplies; it leaves what is modelled, by assigning a property of
    [Object.prototype] or by taking a player id that is no string. *)
Inductive outcome : Type :=
  | Returns (w : world) (out : list sent)
  | Throws
  | Loops
  | Escapes.

Definition init : world :=
  {| rooms := ∅; sessions := ∅; timers := []; closed := ∅ |}.

Definition session_of (w : world) (c : conn) : session :=
  default (Unbound None) (sessions w !! c).

Definition with_rooms (f : gmap string room -> gmap string room) (w : world)
  : world :=
  {| rooms := f (rooms w); sessions := sessions w; timers := timers w;
     closed := closed w |}.

Definition with_session (c : conn) (s : session) (w : world) : world :=
  {| rooms := rooms w; sessions := <[c := s]> (sessions w);
     timers := timers w; closed := closed w |}.

Definition set_room (code : string) (r : room) (w : world) : world :=
  with_rooms (fun m => <[code := r]> m) w.

Definition set_players (ps : Obj.t player) (r : room) : room :=
  mkRoom (host r) ps (started r) (current_level r) (level_wins r)
    (ready_players r) (finished_players r) (death_placeholders r).

Definition set_alive (b : bool) (p : player) : player :=
  mkPlayer (ws p) (name p) (ready p) b (position p) (color p).

Definition set_ready (v : value) (p : player) : player :=
  mkPlayer (ws p) (name p) v (alive p) (position p) (color p).

(** ** Reads that go through the prototype *)

(** What [room.players[k]] evaluates to. *)
Inductive slot : Type :=
  | SPlayer (p : player)     (* the own entry *)
  | SPrototype (p : player)  (* the object assigned through [__proto__] *)
  | SObjectPrototype         (* [Object.prototype] *)
  | SObject                  (* a function of [Object.prototype], a socket,
                                a position: an object nothing else reads *)
  | SValue (v : value)       (* a field of the prototype's player *)
  | SUndefined.

(** A key [Object.prototype] answers. *)
Definition object_prototype_at (k : string) : slot :=
  if Obj.hidden k then SObjectPrototype
  else if is_function_name k then SObject
  else SUndefined.

Definition player_field (k : string) (p : player) : option slot :=
  if String.eqb k "ws" then Some SObject
  else if String.eqb k "name" then Some (SValue (VStr (name p)))
  else if String.eqb k "ready" then Some (SValue (ready p))
  else if String.eqb k "alive" then Some (SValue (VBool (alive p)))
  else if String.eqb k "position" then Some SObject
  else if String.eqb k "color" then Some (SValue (color p))
  else None.

Definition players_at (k : string) (ps : Obj.t player) : slot :=
  match Obj.get k ps with
  | Some p => SPlayer p
  | None =>
      match Obj.proto ps with
      | Some p0 =>
          if Obj.hidden k then SPrototype p0
          else default (object_prototype_at k) (player_field k p0)
      | None => object_prototype_at k
      end
  end.

Definition slot_truthy (s : slot) : bool :=
  match s with
  | SPlayer _ | SPrototype _ | SObjectPrototype | SObject => true
  | SValue v => truthy v
  | SUndefined => false
  end.

(** What [room.players[k].ready = ...] and [room.players[k].alive = ...]
    do. *)
Inductive written : Type :=
  | Written (ps : Obj.t player)  (* the roster afterwards *)
  | Fails                        (* [TypeError]: the target is nullish *)
  | Pollutes                     (* the target is [Object.prototype] *).

Definition write_player (f : player -> player) (k : string)
    (ps : Obj.t player) : written :=
  match players_at k ps with
  | SPlayer p => Written (Obj.set k (f p) ps)
  | SPrototype p0 => Written (Obj.set Obj.proto_key (f p0) ps)
  | SObjectPrototype => Pollutes
  | SObject => Written ps
  | SValue v => if nullish v then Fails else Written ps
  | SUndefined => Fails
  end.

(** What [room.death_placeholders[k]] evaluates to. *)
Inductive found_pos : Type :=
  | POwn (pos : value * value)    (* the own entry *)
  | PProto (pos : value * value)  (* the object assigned through [__proto__] *)
  | PObject                       (* [Object.prototype] or one of its
                                     functions *)
  | PValue (v : value)            (* a coordinate of the prototype's position *)
  | PUndefined.

Definition placeholder_at (k : string) (dp : Obj.t (value * value))
  : found_pos :=
  match Obj.get k dp with
  | Some pos => POwn pos
  | None =>
      match Obj.proto dp with
      | Some pos =>
          if Obj.hidden k then PProto pos
          else if String.eqb k "x" then PValue (fst pos)
          else if String.eqb k "y" then PValue (snd pos)
          else if is_function_name k then PObject
          else PUndefined
      | None =>
          if Obj.hidden k || is_function_name k then PObject else PUndefined
      end
  end.

Definition pos_truthy (f : found_pos) : bool :=
  match f with
  | POwn _ | PProto _ | PObject => true
  | PValue v => truthy v
  | PUndefined => false
  end.

(** [pos.x] and [pos.y] *)
Definition pos_x (f : found_pos) : value :=
  match f with
  | POwn pos | PProto pos => fst pos
  | PValue v => field "x" v
  | PObject | PUndefined => VUndefined
  end.

Definition pos_y (f : found_pos) : value :=
  match f with
  | POwn pos | PProto pos => snd pos
  | PValue v => field "y" v
  | PObject | PUndefined => VUndefined
  end.

(** What [room.level_wins[k]] evaluates to.  Nothing but numbers and texts
    is assigned to [level_wins], so its prototype stays [Object.prototype]. *)
Inductive found_win : Type :=
  | LOwn (n : win)
  | LInherited      (* [Object.prototype] or one of its functions *)
  | LUndefined.

Definition wins_at (k : string) (lw : Obj.t win) : found_win :=
  match Obj.get k lw with
  | Some n => LOwn n
  | None =>
      if Obj.hidden k || is_function_name k then LInherited else LUndefined
  end.

Definition win_truthy (n : win) : bool :=
  match n with
  | WNum z => negb (Z.eqb z 0)
  | WText _ _ => true
  end.

(** ** The server *)

Definition chars : string := "ABCDEFGHJKLMNPQRSTUVWXYZ23456789".

(** [String.prototype.charAt] *)
Definition charAt (s : string) (i : nat) : string :=
  match String.get i s with
  | Some a => String a EmptyString
  | None => EmptyString
  end.

Definition generateRoomCode (draw : nat -> nat) : string :=
  fold_left (fun code i => code +:+ charAt chars (draw i)) (seq 0 4) "".

Definition sendTo (e : env) (c : conn) (m : out_msg) : list sent :=
  if is_open e c then [(c, m)] else [].

Definition broadcastToRoom (e : env) (rs : gmap string room)
    (roomCode : string) (m : out_msg) (excludeWs : option conn) : list sent :=
  match rs !! roomCode with
  | None => []
  | Some r =>
      flat_map
        (fun p =>
           if negb (bool_decide (excludeWs = Some (ws p))) && is_open e (ws p)
           then [(ws p, m)] else [])
        (Obj.values (players r))
  end.

Definition sendToRoom (e : env) (rs : gmap string room) (roomCode : string)
    (m : out_msg) : list sent :=
  broadcastToRoom e rs roomCode m None.

(** One [sendTo] per entry of [Object.entries(room.players)]. *)
Definition send_each (e : env) (ps : Obj.t player)
    (m : string -> out_msg) : list sent :=
  flat_map (fun kv => sendTo e (ws (snd kv)) (m (fst kv))) (Obj.entries ps).

(** The guard every handler after [join_room] starts with:
    [if (!playerRoomCode || !rooms[playerRoomCode]) return;] *)
Definition bound_room (w : world) (c : conn)
  : option (string * string * room) :=
  match session_of w c with
  | Unbound _ => None
  | Bound code pid =>
      if String.eqb code "" then None
      else match rooms w !! code with
           | Some r => Some (code, pid, r)
           | None => None
           end
  end.

(** The do-while loop of [create_room], as far as the draws go. *)
Fixpoint fresh_code (draws : list (nat -> nat)) (rs : gmap string room)
  : option string :=
  match draws with
  | [] => None
  | d :: rest =>
      let code := generateRoomCode d in
      match rs !! code with
      | Some _ => fresh_code rest rs
      | None => Some code
      end
  end.

Definition new_player (c : conn) (id : string) (col : value) : player :=
  {| ws := c; name := id; ready := VBool false; alive := true;
     position := (360, 400)%Z; color := col |}.

Definition on_create_room (e : env) (c : conn) (player_name : option string)
    (col : value) (w : world) : outcome :=
  match fresh_code (code_draws e) (rooms w) with
  | None => Loops
  | Some code =>
      let playerId := str_or_else player_name "Player1" in
      let r :=
        {| host := playerId;
           players :=
             Obj.set playerId
               (new_player c playerId (or_else col (VStr "#4dff7c"))) [];
           started := false;
           current_level := 1%Z;
           level_wins := [];
           ready_players := ∅;
           finished_players := ∅;
           death_placeholders := [] |} in
      Returns (with_session c (Bound code playerId) (set_room code r w))
        (sendTo e c (room_created code playerId true))
  end.

(** The names a roster can answer to without having them as own keys. *)
Definition inherited_names : list string :=
  Obj.proto_key :: object_prototype_functions
  ++ [ "ws"; "name"; "ready"; "alive"; "position"; "color" ].

(** The while loop that makes the name unique; [counter] is the suffix the
    next turn appends. *)
Fixpoint unique_name (fuel : nat) (ps : Obj.t player)
    (baseName playerId : string) (counter : nat) : option string :=
  if slot_truthy (players_at playerId ps) then
    match fuel with
    | O => None
    | S fuel' =>
        unique_name fuel' ps baseName (baseName +:+ pretty counter)
          (S counter)
    end
  else Some playerId.

(** [playerId = ...] of [join_room], which comes before every check. *)
Definition rename (id : string) (s : session) : session :=
  match s with
  | Unbound _ => Unbound (Some id)
  | Bound code _ => Bound code id
  end.

Definition existing_players (ps : Obj.t player)
  : Obj.t (string * value * value) :=
  fold_left
    (fun acc kv =>
       Obj.set (fst kv) (name (snd kv), ready (snd kv), color (snd kv)) acc)
    (Obj.entries ps) [].

Definition on_join_room (e : env) (c : conn) (room_code : option string)
    (player_name : option string) (col : value) (w : world) : outcome :=
  let code := toUpperCase (unicode_upper e (str_or_else room_code "")) in
  let requested :=
    str_or_else player_name ("Player" +:+ pretty (name_draw e)) in
  let w0 := with_session c (rename requested (session_of w c)) w in
  match rooms w !! code with
  | None => Returns w0 (sendTo e c (error "Room not found"))
  | Some r =>
      if started r then
        Returns w0 (sendTo e c (error "Game already started"))
      else if (10 <=? length (Obj.keys (players r)))%nat then
        Returns w0 (sendTo e c (error "Room is full"))
      else
        match unique_name (S (length (players r) + length inherited_names))
                (players r) requested requested 1 with
        | None => Loops
        | Some playerId =>
            let p := new_player c playerId (or_else col (VStr "#ff6b6b")) in
            let r' := set_players (Obj.set playerId p (players r)) r in
            let w' := with_session c (Bound code playerId) (set_room code r' w) in
            Returns w'
              (sendTo e c
                 (room_joined code playerId false
                    (existing_players (players r')) (host r'))
               ++ broadcastToRoom e (rooms w') code
                    (player_joined playerId playerId (color p)) (Some c))
        end
  end.

Definition on_player_ready (e : env) (c : conn) (v : value) (w : world)
  : outcome :=
  match bound_room w c with
  | None => Returns w []
  | Some (code, playerId, r) =>
      match write_player (set_ready v) playerId (players r) with
      | Fails => Throws
      | Pollutes => Escapes
      | Written ps' =>
          let ready' :=
            if truthy v then {[playerId]} ∪ ready_players r
            else ready_players r ∖ {[playerId]} in
          let r' :=
            {| host := host r;
               players := ps';
               started := started r;
               current_level := current_level r;
               level_wins := level_wins r;
               ready_players := ready';
               finished_players := finished_players r;
               death_placeholders := death_placeholders r |} in
          let w' := set_room code r' w in
          Returns w'
            (broadcastToRoom e (rooms w') code
               (player_ready_update playerId v (size ready')
                  (length (Obj.keys (players r'))))
               None)
      end
  end.

(** The three ways [start_game] ends once the room is known. *)
Inductive start_verdict : Type := NotHost | NotAllReady | Started.

Definition start_game_verdict (playerId : string) (r : room) : start_verdict :=
  if negb (String.eqb playerId (host r)) then NotHost
  else if (size (ready_players r) <? length (Obj.keys (players r)))%nat
       then NotAllReady
       else Started.

(** [if (!room.level_wins[id]) room.level_wins[id] = 0] *)
Definition init_one (lw : Obj.t win) (id : string) : Obj.t win :=
  match wins_at id lw with
  | LOwn n => if win_truthy n then lw else Obj.set id (WNum 0) lw
  | LInherited => lw
  | LUndefined => Obj.set id (WNum 0) lw
  end.

(** ... for every key of the roster *)
Definition init_level_wins (ids : list string) (lw : Obj.t win) : Obj.t win :=
  fold_left init_one ids lw.

Definition start_room (r : room) : room :=
  {| host := host r;
     players := Obj.map_values (set_alive true) (players r);
     started := true;
     current_level := 1%Z;
     level_wins := init_level_wins (Obj.keys (players r)) (level_wins r);
     ready_players := ready_players r;
     finished_players := ∅;
     death_placeholders := [] |}.

Definition player_list (ps : Obj.t player) : Obj.t (string * value) :=
  fold_left
    (fun acc kv => Obj.set (fst kv) (name (snd kv), color (snd kv)) acc)
    (Obj.entries ps) [].

Definition on_start_game (e : env) (c : conn) (w : world) : outcome :=
  match bound_room w c with
  | None => Returns w []
  | Some (code, playerId, r) =>
      match start_game_verdict playerId r with
      | NotHost => Returns w []
      | NotAllReady =>
          Returns w (sendTo e c (error "Not all players are ready"))
      | Started =>
          let r' := start_room r in
          Returns (set_room code r' w)
            (send_each e (players r')
               (fun id => game_start 1%Z (player_list (players r')) id))
      end
  end.

Definition on_player_position (e : env) (c : conn) (x y : value) (w : world)
  : outcome :=
  match bound_room w c with
  | None => Returns w []
  | Some (code, playerId, _) =>
      Returns w
        (broadcastToRoom e (rooms w) code (player_moved playerId x y) (Some c))
  end.

Definition on_player_died (e : env) (c : conn) (x y : value) (w : world)
  : outcome :=
  match bound_room w c with
  | None => Returns w []
  | Some (code, playerId, r) =>
      match write_player (set_alive false) playerId (players r) with
      | Fails => Throws
      | Pollutes => Escapes
      | Written ps' =>
          let r' :=
            {| host := host r;
               players := ps';
               started := started r;
               current_level := current_level r;
               level_wins := level_wins r;
               ready_players := ready_players r;
               finished_players := finished_players r;
               death_placeholders :=
                 Obj.set playerId (x, y) (death_placeholders r) |} in
          let w' := set_room code r' w in
          Returns w'
            (broadcastToRoom e (rooms w') code (out_player_died playerId x y)
               (Some c)
             ++ sendTo e c (you_died x y))
      end
  end.

Definition on_revive_player (e : env) (c : conn) (targetId : string)
    (w : world) : outcome :=
  match bound_room w c with
  | None => Returns w []
  | Some (code, playerId, r) =>
      let pos := placeholder_at targetId (death_placeholders r) in
      if pos_truthy pos then
        match write_player (set_alive true) targetId (players r) with
        | Fails => Throws
        | Pollutes => Escapes
        | Written ps' =>
            let r' :=
              {| host := host r;
                 players := ps';
                 started := started r;
                 current_level := current_level r;
                 level_wins := level_wins r;
                 ready_players := ready_players r;
                 finished_players := finished_players r;
                 death_placeholders :=
                   Obj.del targetId (death_placeholders r) |} in
            Returns (set_room code r' w)
              (send_each e (players r')
                 (fun _ =>
                    player_revived targetId playerId (pos_x pos) (pos_y pos)))
        end
      else Returns w []
  end.

(** [(room.level_wins[id] || 0) + 1] *)
Definition next_win (id : string) (lw : Obj.t win) : win :=
  match wins_at id lw with
  | LOwn (WNum n) => WNum (n + 1)
  | LOwn (WText fn ones) => WText fn (S ones)
  | LInherited => WText id 1
  | LUndefined => WNum 1
  end.

(** [room.level_wins[id] = (room.level_wins[id] || 0) + 1]: what is assigned
    is no object, so under [__proto__] the assignment does nothing. *)
Definition credit (id : string) (lw : Obj.t win) : Obj.t win :=
  if Obj.hidden id then lw else Obj.set id (next_win id lw) lw.

Definition on_player_finished (e : env) (c : conn) (w : world) : outcome :=
  match bound_room w c with
  | None => Returns w []
  | Some (code, playerId, r) =>
      let finished' := {[playerId]} ∪ finished_players r in
      let is_first := (size finished' =? 1)%nat in
      let wins' :=
        if is_first then credit playerId (level_wins r) else level_wins r in
      let r' :=
        {| host := host r;
           players := players r;
           started := started r;
           current_level := current_level r;
           level_wins := wins';
           ready_players := ready_players r;
           finished_players := finished';
           death_placeholders := death_placeholders r |} in
      let w' :=
        {| rooms := <[code := r']> (rooms w);
           sessions := sessions w;
           timers := if is_first then timers w ++ [c] else timers w;
           closed := closed w |} in
      Returns w'
        (send_each e (players r')
           (fun _ =>
              out_player_finished playerId is_first (size finished')
                (length (Obj.keys (players r'))) wins'))
  end.

Definition on_lobby_position (e : env) (c : conn) (x y : value) (w : world)
  : outcome :=
  match bound_room w c with
  | None => Returns w []
  | Some (code, playerId, _) =>
      Returns w
        (broadcastToRoom e (rooms w) code (lobby_player_moved playerId x y)
           (Some c))
  end.

Definition on_message (e : env) (c : conn) (m : in_msg) (w : world)
  : outcome :=
  match m with
  | create_room n col => on_create_room e c n col w
  | join_room code n col => on_join_room e c code n col w
  | join_room_bad_code => Throws
  | player_ready v => on_player_ready e c v w
  | start_game => on_start_game e c w
  | player_position x y => on_player_position e c x y w
  | player_died x y => on_player_died e c x y w
  | revive_player t => on_revive_player e c t w
  | player_finished => on_player_finished e c w
  | lobby_position x y => on_lobby_position e c x y w
  | null_frame => Throws
  | unrecognized | malformed => Returns w []
  | ill_typed => Escapes
  end.

(** The room after the departing player is taken out of the four
    collections. *)
Definition leave_room (playerId : string) (r : room) : room :=
  {| host := host r;
     players := Obj.del playerId (players r);
     started := started r;
     current_level := current_level r;
     level_wins := level_wins r;
     ready_players := ready_players r ∖ {[playerId]};
     finished_players := finished_players r ∖ {[playerId]};
     death_placeholders := Obj.del playerId (death_placeholders r) |}.

Definition set_host (h : string) (r : room) : room :=
  mkRoom h (players r) (started r) (current_level r) (level_wins r)
    (ready_players r) (finished_players r) (death_placeholders r).

Definition mark_closed (c : conn) (w : world) : world :=
  {| rooms := rooms w; sessions := sessions w; timers := timers w;
     closed := {[c]} ∪ closed w |}.

Definition on_close (e : env) (c : conn) (w : world) : outcome :=
  let w0 := mark_closed c w in
  match bound_room w c with
  | None => Returns w0 []
  | Some (code, playerId, r) =>
      let r1 := leave_room playerId r in
      let w1 := set_room code r1 w0 in
      let left := broadcastToRoom e (rooms w1) code (player_left playerId) None in
      match Obj.keys (players r1) with
      | [] => Returns (with_rooms (delete code) w1) left
      | newHost :: _ =>
          if String.eqb (host r1) playerId then
            Returns (set_room code (set_host newHost r1) w0)
              (left ++ send_each e (players r1) (fun _ => new_host newHost))
          else Returns w1 left
      end
  end.

Definition set_started (b : bool) (r : room) : room :=
  mkRoom (host r) (players r) b (current_level r) (level_wins r)
    (ready_players r) (finished_players r) (death_placeholders r).

(** The room after the first half of [advanceLevel]. *)
Definition next_room (r : room) : room :=
  {| host := host r;
     players := Obj.map_values (set_alive true) (players r);
     started := started r;
     current_level := (current_level r + 1)%Z;
     level_wins := level_wins r;
     ready_players := ready_players r;
     finished_players := ∅;
     death_placeholders := [] |}.

Definition advanceLevel (e : env) (roomCode : string) (w : world) : outcome :=
  match rooms w !! roomCode with
  | None => Returns w []
  | Some r =>
      let r1 := next_room r in
      if (20 <? current_level r1)%Z then
        Returns (set_room roomCode (set_started false r1) w)
          (send_each e (players r1) (fun _ => game_over (level_wins r1)))
      else
        Returns (set_room roomCode r1 w)
          (send_each e (players r1)
             (fun _ => next_level (current_level r1) (level_wins r1)))
  end.

(** The key [rooms[playerRoomCode]] reads inside the timer callback: the
    closure sees the variable as it is when the timer fires. *)
Definition room_key (s : session) : string :=
  match s with
  | Bound code _ => code
  | Unbound _ => "null"
  end.

(** The oldest pending 3000ms timer fires (equal delays fire in the order
    they were set). *)
Definition on_timeout (e : env) (w : world) : outcome :=
  match timers w with
  | [] => Returns w []
  | c :: rest =>
      let w0 :=
        {| rooms := rooms w; sessions := sessions w; timers := rest;
           closed := closed w |} in
      let code := room_key (session_of w0 c) in
      match rooms w0 !! code with
      | None => Returns w0 []
      | Some _ => advanceLevel e code w0
      end
  end.

(** ** Runs of the server *)

Inductive event : Type :=
  | Message (c : conn) (m : in_msg)
  | Close (c : conn)
  | Timeout.

(** A socket that has closed sends nothing more and closes once; a timer
    fires only when one is pending. *)
Definition enabled (w : world) (ev : event) : bool :=
  match ev with
  | Message c _ | Close c => negb (bool_decide (c ∈ closed w))
  | Timeout => match timers w with [] => false | _ :: _ => true end
  end.

Definition step (e : env) (ev : event) (w : world) : outcome :=
  match ev with
  | Message c m => on_message e c m w
  | Close c => on_close e c w
  | Timeout => on_timeout e w
  end.

Inductive reachable : world -> Prop :=
  | reachable_init : reachable init
  | reachable_step w e ev w' out :
      reachable w -> enabled w ev = true -> step e ev w = Returns w' out ->
      reachable w'.

(** Running a list of events; [None] when an event is not enabled or a
    handler does not return. *)
Fixpoint exec (tr : list (env * event)) (w : world) : option world :=
  match tr with
  | [] => Some w
  | (e, ev) :: rest =>
      if enabled w ev then
        match step e ev w with
        | Returns w' _ => exec rest w'
        | Throws | Loops | Escapes => None
        end
      else None
  end.

(** What the last event of a run wrote to the sockets. *)
Fixpoint last_out (tr : list (env * event)) (w : world) : list sent :=
  match tr with
  | [] => []
  | (e, ev) :: rest =>
      match step e ev w with
      | Returns w' out =>
          match rest with [] => out | _ :: _ => last_out rest w' end
      | Throws | Loops | Escapes => []
      end
  end.

(** ** What holds of every room of a run *)

Record room_ok (r : room) : Prop := mkRoomOk {
  ok_keys : NoDup (Obj.keys (players r));
  ok_cap : length (Obj.keys (players r)) <= 10;
  ok_level : (1 <= current_level r)%Z;
  ok_over : (20 < current_level r)%Z -> started r = false
}.

Definition world_ok (w : world) : Prop :=
  map_Forall (fun _ r => room_ok r) (rooms w).


(** ** The roster by insertion order

The order the specification speaks of when it says "first by insertion
order": ids that left are dropped, ids that are new go to the end. *)


Definition roster (code : string) (w : world) : list string :=
  match rooms w !! code with
  | Some r => Obj.keys (players r)
  | None => []
  end.


(** ** Membership *)

(** The operations a client sends once it is in a room. *)
Definition post_join (m : in_msg) : bool :=
  match m with
  | player_ready _ | player_died _ _ | player_position _ _
  | player_finished | revive_player _ | lobby_position _ _ => true
  | create_room _ _ | join_room _ _ _ | join_room_bad_code | start_game
  | unrecognized | null_frame | malformed | ill_typed => false
  end.

(** The sender is an existing player of a known room. *)
Definition is_member (w : world) (c : conn) : bool :=
  match bound_room w c with
  | Some (_, pid, r) => Obj.has pid (players r)
  | None => false
  end.


(** ** Win tables *)




(** The room an event works on: the room of the sending or closing session,
    or the room the oldest timer resolves to. *)
Definition acting_room (w : world) (ev : event) : option string :=
  match ev with
  | Message c _ | Close c =>
      match bound_room w c with
      | Some (code, _, _) => Some code
      | None => None
      end
  | Timeout =>
      match timers w with
      | c :: _ => Some (room_key (session_of w c))
      | [] => None
      end
  end.


(** ** How one step changes one room *)

(** The room [create_room] puts into the registry. *)
Definition created_room (c : conn) (id : string) (col : value) : room :=
  {| host := id;
     players := Obj.set id (new_player c id col) [];
     started := false;
     current_level := 1%Z;
     level_wins := [];
     ready_players := ∅;
     finished_players := ∅;
     death_placeholders := [] |}.

(** The changes the handlers make to a room that is in the registry, each
    with the tests it passed. *)
Inductive room_trans : room -> room -> Prop :=
  | trans_join r c id col :
      started r = false ->
      length (Obj.keys (players r)) < 10 ->
      slot_truthy (players_at id (players r)) = false ->
      room_trans r
        (set_players (Obj.set id (new_player c id col) (players r)) r)
  | trans_ready r id v ps' :
      write_player (set_ready v) id (players r) = Written ps' ->
      room_trans r
        {| host := host r;
           players := ps';
           started := started r;
           current_level := current_level r;
           level_wins := level_wins r;
           ready_players :=
             if truthy v then {[id]} ∪ ready_players r
             else ready_players r ∖ {[id]};
           finished_players := finished_players r;
           death_placeholders := death_placeholders r |}
  | trans_start r :
      length (Obj.keys (players r)) <= size (ready_players r) ->
      room_trans r (start_room r)
  | trans_died r id pos ps' :
      write_player (set_alive false) id (players r) = Written ps' ->
      room_trans r
        {| host := host r;
           players := ps';
           started := started r;
           current_level := current_level r;
           level_wins := level_wins r;
           ready_players := ready_players r;
           finished_players := finished_players r;
           death_placeholders := Obj.set id pos (death_placeholders r) |}
  | trans_revive r id ps' :
      pos_truthy (placeholder_at id (death_placeholders r)) = true ->
      write_player (set_alive true) id (players r) = Written ps' ->
      room_trans r
        {| host := host r;
           players := ps';
           started := started r;
           current_level := current_level r;
           level_wins := level_wins r;
           ready_players := ready_players r;
           finished_players := finished_players r;
           death_placeholders := Obj.del id (death_placeholders r) |}
  | trans_finish r id :
      room_trans r
        {| host := host r;
           players := players r;
           started := started r;
           current_level := current_level r;
           level_wins :=
             if (size ({[id]} ∪ finished_players r) =? 1)%nat
             then credit id (level_wins r)
             else level_wins r;
           ready_players := ready_players r;
           finished_players := {[id]} ∪ finished_players r;
           death_placeholders := death_placeholders r |}
  | trans_leave r id newHost rest :
      Obj.keys (players (leave_room id r)) = newHost :: rest ->
      host r <> id ->
      room_trans r (leave_room id r)
  | trans_leave_host r id newHost rest :
      Obj.keys (players (leave_room id r)) = newHost :: rest ->
      host r = id ->
      room_trans r (set_host newHost (leave_room id r))
  | trans_advance r :
      room_trans r
        (if (20 <? current_level (next_room r))%Z
         then set_started false (next_room r) else next_room r).

(** ** Room codes *)

Definition in_string (a : ascii) (s : string) : bool :=
  existsb (Ascii.eqb a) (list_ascii_of_string s).

(** Four characters, each of the alphabet [chars]. *)
Definition is_code (s : string) : bool :=
  (String.length s =? 4)%nat
  && forallb (fun a => in_string a chars) (list_ascii_of_string s).

(** No character that is easily taken for another one. *)
Definition unambiguous (s : string) : bool :=
  forallb (fun a => negb (in_string a "0O1I")) (list_ascii_of_string s).


(** ** The room a step works on *)

(** The only code under which a step may change the registry: the code
    [create_room] picks, the upper-cased code of [join_room], the room of the
    session otherwise, the room the oldest timer resolves to. *)
Definition target_room (e : env) (w : world) (ev : event) : option string :=
  match ev with
  | Message _ (create_room _ _) => fresh_code (code_draws e) (rooms w)
  | Message _ (join_room rc _ _) =>
      Some (toUpperCase (unicode_upper e (str_or_else rc "")))
  | _ => acting_room w ev
  end.


(** The messages that assign the closure variables. *)
Definition binds_session (m : in_msg) : bool :=
  match m with
  | create_room _ _ | join_room _ _ _ => true
  | _ => false
  end.

(** The world with its oldest timer taken off. *)
Definition pop_timer (w : world) : world :=
  {| rooms := rooms w; sessions := sessions w; timers := tail (timers w);
     closed := closed w |}.

(** ** Concrete runs *)

Definition all_open (draws : list (nat -> nat)) : env :=
  {| is_open := fun _ => true; code_draws := draws; name_draw := 0;
     unicode_upper := fun s => s |}.

Definition aaaa : env := all_open [fun _ => 0].

Definition room_at (code : string) (ow : option world) : option room :=
  match ow with Some w => rooms w !! code | None => None end.


Definition from (c : conn) (m : in_msg) : env * event := (aaaa, Message c m).

Definition world_after (tr : list (env * event)) : world :=
  default init (exec tr init).

(** The run goes through: every event is enabled and every handler
    returns. *)
Definition runs (tr : list (env * event)) : bool :=
  match exec tr init with Some _ => true | None => false end.

Definition room_after (code : string) (tr : list (env * event)) : option room :=
  room_at code (exec tr init).

Definition blank_room : room := mkRoom "" [] false 0 [] ∅ ∅ [].

Definition the_room (code : string) (tr : list (env * event)) : room :=
  default blank_room (room_after code tr).

(** One player creates room AAAA. *)
Definition solo_room : list (env * event) :=
  [ from 1 (create_room (Some "A") VUndefined) ].

(** One player creates room AAAA and readies up. *)
Definition solo_lobby : list (env * event) :=
  [ from 1 (create_room (Some "A") VUndefined);
    from 1 (player_ready (VBool true)) ].

(** ... and starts the match. *)
Definition solo_match : list (env * event) :=
  solo_lobby ++ [ from 1 start_game ].

(** Two players in a started match; B dies at (3, 4). *)
Definition duo_match : list (env * event) :=
  [ from 1 (create_room (Some "A") VUndefined);
    from 2 (join_room (Some "AAAA") (Some "B") VUndefined);
    from 1 (player_ready (VBool true));
    from 2 (player_ready (VBool true));
    from 1 start_game ].

Definition duo_dead : list (env * event) :=
  duo_match ++ [ from 2 (player_died (VNum 3) (VNum 4)) ].



(** A creates room AAAA, then asks to join a room that does not exist under
    the name B. *)
Definition failed_join : list (env * event) :=
  solo_room ++ [ from 1 (join_room (Some "ZZZZ") (Some "B") VUndefined) ].

Definition bbbb : env := all_open [fun _ => 1].

(** A creates room AAAA, then room BBBB on the same connection, then
    disconnects. *)
Definition moved_on : list (env * event) :=
  solo_room
  ++ [ (bbbb, Message 1 (create_room (Some "A") VUndefined));
       (aaaa, Close 1) ].

(** B leaves the started two-player match. *)
Definition duo_left : list (env * event) :=
  duo_match ++ [ (aaaa, Close 2) ].

(** The only player of a started match reports the finish once, twice. *)
Definition finished_once : list (env * event) :=
  solo_match ++ [ from 1 player_finished ].

Definition finished_twice : list (env * event) :=
  finished_once ++ [ from 1 player_finished ].

(** Twenty-one rounds of one finish followed by the timer it set. *)
Definition rounds_21 : list (env * event) :=
  solo_match
  ++ concat (replicate 21 [ from 1 player_finished; (aaaa, Timeout) ]).

(** Two players in the lobby, one of them ready. *)
Definition duo_lobby : list (env * event) :=
  [ from 1 (create_room (Some "A") VUndefined);
    from 2 (join_room (Some "AAAA") (Some "B") VUndefined);
    from 2 (player_ready (VBool true)) ].

(** The player [new_player] makes for B on connection 2. *)
Definition player_b : player := new_player 2 "B" (VStr "#ff6b6b").

(** The creator of room AAAA calls itself [__proto__] and readies up. *)
Definition proto_lobby : list (env * event) :=
  [ from 1 (create_room (Some "__proto__") VUndefined);
    from 1 (player_ready (VBool true)) ].

(** The creator of room AAAA calls itself [__proto__] and dies; B joins, is
    refused another join under the name alive, and dies; a third client
    joins as alive. *)
Definition revenant : list (env * event) :=
  [ from 1 (create_room (Some "__proto__") VUndefined);
    from 1 (player_died (VNum 1) (VNum 2));
    from 2 (join_room (Some "AAAA") (Some "B") VUndefined);
    from 2 (join_room (Some "ZZZZ") (Some "alive") VUndefined);
    from 2 (player_died (VNum 3) (VNum 4));
    from 3 (join_room (Some "AAAA") (Some "alive") VUndefined) ].

(** What [start_game] leaves under a roster id in the win table. *)
Definition start_win (id : string) (lw : Obj.t win) : option win :=
  match wins_at id lw with
  | LOwn n => Some n
  | LInherited => None
  | LUndefined => Some (WNum 0)
  end.
(** * Proofs *)

(** ** Facts about ordered dictionaries *)

Module ObjFacts.
Import Obj.

Lemma filter_all {A} (P : A -> Prop) `{!forall x, Decision (P x)} (l : list A) :
  Forall P l -> filter P l = l.
Proof.
  induction 1 as [|x l Hx _ IH]; [done|].
  by rewrite filter_cons_True, IH.
Qed.

Section Facts.
Context {V : Type}.
Implicit Types (o : t V) (k : string) (v : V).

Lemma eqb_refl k : String.eqb k k = true.
Proof. by apply String.eqb_eq. Qed.

Lemma eqb_ne k k' : k ≠ k' -> String.eqb k k' = false.
Proof. by intros; apply String.eqb_neq. Qed.

Lemma hidden_true k : hidden k = true <-> k = proto_key.
Proof. apply String.eqb_eq. Qed.

Lemma hidden_false k : hidden k = false <-> k ≠ proto_key.
Proof. apply String.eqb_neq. Qed.

(** *** All entries *)

Lemma lookup_None k o : lookup k o = None <-> k ∉ raw_keys o.
Proof.
  induction o as [|[k' v'] o IH]; simpl.
  - split; [intros _; apply not_elem_of_nil | done].
  - destruct (String.eqb_spec k k') as [->|Hne].
    + split; [done | intros H; destruct H; left].
    + unfold raw_keys in *. csimpl. rewrite IH, not_elem_of_cons. tauto.
Qed.

Lemma lookup_Some_elem k v o : lookup k o = Some v -> (k, v) ∈ o.
Proof.
  induction o as [|[k' v'] o IH]; simpl; [done|].
  destruct (String.eqb_spec k k') as [->|Hne].
  - intros [= ->]. left.
  - intros H. right. auto.
Qed.

Lemma lookup_is_Some k o : is_Some (lookup k o) <-> k ∈ raw_keys o.
Proof.
  rewrite <- not_eq_None_Some, lookup_None.
  destruct (decide (k ∈ raw_keys o)); tauto.
Qed.

Lemma raw_keys_replace k v o : raw_keys (replace k v o) = raw_keys o.
Proof.
  induction o as [|[k' v'] o IH]; simpl; [done|].
  destruct (String.eqb_spec k k') as [->|Hne]; [done|].
  unfold raw_keys in *. csimpl. by rewrite IH.
Qed.

Lemma lookup_replace_eq k v o :
  k ∈ raw_keys o -> lookup k (replace k v o) = Some v.
Proof.
  induction o as [|[k' v'] o IH]; simpl; intros Hin.
  - by apply elem_of_nil in Hin.
  - destruct (String.eqb_spec k k') as [->|Hne]; simpl.
    + by rewrite eqb_refl.
    + rewrite (eqb_ne _ _ Hne). apply IH.
      apply elem_of_cons in Hin as [?|?]; done.
Qed.

Lemma lookup_replace_ne k k' v o :
  k ≠ k' -> lookup k' (replace k v o) = lookup k' o.
Proof.
  intros Hne. induction o as [|[k2 v2] o IH]; simpl; [done|].
  destruct (String.eqb_spec k k2) as [->|Hne2]; simpl.
  - by rewrite !(eqb_ne k' k2).
  - by rewrite IH.
Qed.

Lemma raw_keys_insert_index n k v o :
  raw_keys (insert_index n k v o) ≡ₚ k :: raw_keys o.
Proof.
  induction o as [|[k' v'] o IH]; simpl; [done|].
  destruct (array_index k') as [m|]; [|done].
  destruct (m <? n)%N; [|done].
  unfold raw_keys in *. csimpl. rewrite IH. apply Permutation_swap.
Qed.

Lemma lookup_insert_index_eq n k v o :
  k ∉ raw_keys o -> lookup k (insert_index n k v o) = Some v.
Proof.
  induction o as [|[k' v'] o IH]; simpl; intros Hk.
  - by rewrite eqb_refl.
  - apply not_elem_of_cons in Hk as [Hne Hk].
    destruct (array_index k') as [m|]; [destruct (m <? n)%N|]; simpl;
      rewrite ?eqb_refl, ?(eqb_ne _ _ Hne); auto.
Qed.

Lemma lookup_insert_index_ne n k k' v o :
  k ≠ k' -> lookup k' (insert_index n k v o) = lookup k' o.
Proof.
  intros Hne. induction o as [|[k2 v2] o IH]; simpl.
  - by rewrite (eqb_ne k' k).
  - destruct (array_index k2) as [m|]; [destruct (m <? n)%N|]; simpl;
      rewrite ?(eqb_ne k' k), ?IH by done; done.
Qed.

Lemma lookup_app k o1 o2 :
  lookup k (o1 ++ o2)
  = match lookup k o1 with Some v => Some v | None => lookup k o2 end.
Proof.
  induction o1 as [|[k' v'] o1 IH]; simpl; [done|].
  by destruct (String.eqb k k').
Qed.

Lemma lookup_set_eq k v o : lookup k (set k v o) = Some v.
Proof.
  unfold set. destruct (lookup k o) eqn:Hh.
  - apply lookup_replace_eq, lookup_is_Some. by rewrite Hh.
  - apply lookup_None in Hh. destruct (array_index k).
    + by apply lookup_insert_index_eq.
    + rewrite lookup_app. apply lookup_None in Hh. rewrite Hh. simpl.
      by rewrite eqb_refl.
Qed.

Lemma lookup_set_ne k k' v o : k ≠ k' -> lookup k' (set k v o) = lookup k' o.
Proof.
  intros Hne. unfold set. destruct (lookup k o).
  - by apply lookup_replace_ne.
  - destruct (array_index k).
    + by apply lookup_insert_index_ne.
    + rewrite lookup_app. simpl. rewrite (eqb_ne k' k) by done.
      by destruct (lookup k' o).
Qed.

Lemma lookup_remove_ne k k' o : k ≠ k' -> lookup k' (remove k o) = lookup k' o.
Proof.
  intros Hne. induction o as [|[k2 v2] o IH]; simpl; [done|].
  destruct (String.eqb_spec k k2) as [->|Hne2]; simpl.
  - by rewrite (eqb_ne k' k2).
  - by rewrite IH.
Qed.

Lemma lookup_map_values (f : V -> V) k o :
  lookup k (map_values f o)
  = (if hidden k then id else f) <$> lookup k o.
Proof.
  induction o as [|[k' v'] o IH]; [done|].
  unfold map_values in *. csimpl.
  destruct (String.eqb_spec k k') as [->|Hne].
  - destruct (hidden k'); simpl; by rewrite eqb_refl.
  - destruct (hidden k'); simpl; by rewrite (eqb_ne _ _ Hne), IH.
Qed.

(** *** The prototype is not an array index *)

Lemma array_index_hidden k : hidden k = true -> array_index k = None.
Proof. by intros ->%hidden_true. Qed.

(** *** Own properties *)

Lemma entries_cons k v o :
  entries ((k, v) :: o)
  = if hidden k then entries o else (k, v) :: entries o.
Proof. unfold entries. simpl. by destruct (hidden k). Qed.

Lemma entries_app o1 o2 : entries (o1 ++ o2) = entries o1 ++ entries o2.
Proof. apply List.filter_app. Qed.

Lemma keys_cons k v o :
  keys ((k, v) :: o) = if hidden k then keys o else k :: keys o.
Proof. unfold keys. rewrite entries_cons. by destruct (hidden k). Qed.

Lemma values_cons k v o :
  values ((k, v) :: o) = if hidden k then values o else v :: values o.
Proof. unfold values. rewrite entries_cons. by destruct (hidden k). Qed.

Lemma keys_app o1 o2 : keys (o1 ++ o2) = keys o1 ++ keys o2.
Proof. unfold keys. by rewrite entries_app, fmap_app. Qed.

Lemma elem_of_entries k v o :
  (k, v) ∈ entries o <-> (k, v) ∈ o /\ hidden k = false.
Proof.
  unfold entries. rewrite !list_elem_of_In, List.filter_In. simpl.
  by rewrite negb_true_iff.
Qed.

Lemma elem_of_keys k o : k ∈ keys o <-> k ∈ raw_keys o /\ hidden k = false.
Proof.
  unfold keys, raw_keys. rewrite !list_elem_of_fmap. split.
  - intros ([k' v] & -> & Hin). apply elem_of_entries in Hin as [? ?].
    split; [by exists (k', v) | done].
  - intros [([k' v] & -> & Hin) Hh]. exists (k', v). split; [done|].
    by apply elem_of_entries.
Qed.

Lemma keys_visible k o : k ∈ keys o -> hidden k = false.
Proof. by intros [_ ?]%elem_of_keys. Qed.

Lemma get_visible k v o : get k o = Some v -> hidden k = false.
Proof. unfold get. by destruct (hidden k). Qed.

Lemma get_lookup k o : hidden k = false -> get k o = lookup k o.
Proof. unfold get. by intros ->. Qed.

Lemma get_hidden k o : hidden k = true -> get k o = None.
Proof. unfold get. by intros ->. Qed.

Lemma get_None k o : get k o = None <-> k ∉ keys o.
Proof.
  rewrite elem_of_keys. unfold get. destruct (hidden k).
  - split; [by intros _ [_ ?] | done].
  - rewrite lookup_None. tauto.
Qed.

Lemma get_Some_entry k v o : get k o = Some v -> (k, v) ∈ entries o.
Proof.
  intros H. apply elem_of_entries. split; [|by eapply get_visible].
  apply lookup_Some_elem. by rewrite <- get_lookup by by eapply get_visible.
Qed.

Lemma get_Some_elem k v o : get k o = Some v -> (k, v) ∈ o.
Proof. by intros [? _]%get_Some_entry%elem_of_entries. Qed.

Lemma get_Some_value k v o : get k o = Some v -> v ∈ values o.
Proof.
  intros H%get_Some_entry. unfold values. apply list_elem_of_fmap.
  by exists (k, v).
Qed.

Lemma get_is_Some k o : is_Some (get k o) <-> k ∈ keys o.
Proof.
  rewrite <- not_eq_None_Some, get_None.
  destruct (decide (k ∈ keys o)); tauto.
Qed.

Lemma has_true k o : has k o = true <-> k ∈ keys o.
Proof.
  unfold has. rewrite <- get_is_Some.
  destruct (get k o); split; intros H; eauto; try done.
Qed.

Lemma has_false k o : has k o = false <-> k ∉ keys o.
Proof.
  rewrite <- has_true. destruct (has k o); split; congruence.
Qed.

Lemma get_NoDup k v o :
  NoDup (keys o) -> (k, v) ∈ entries o -> get k o = Some v.
Proof.
  induction o as [|[k' v'] o IH]; intros Hnd Hin.
  - by apply elem_of_nil in Hin.
  - rewrite keys_cons in Hnd. rewrite entries_cons in Hin.
    unfold get in *. simpl.
    destruct (hidden k') eqn:Hk'.
    + specialize (IH Hnd Hin). destruct (hidden k) eqn:Hk.
      * apply elem_of_entries in Hin as [_ ?]. congruence.
      * assert (k ≠ k') as Hne by (intros ->; congruence).
        by rewrite (eqb_ne _ _ Hne).
    + apply NoDup_cons in Hnd as [Hn Hnd].
      apply elem_of_cons in Hin as [[= -> ->]|Hin].
      * by rewrite Hk', eqb_refl.
      * specialize (IH Hnd Hin).
        destruct (hidden k) eqn:Hk; [done|].
        destruct (String.eqb_spec k k') as [->|Hne]; [|done].
        destruct Hn. unfold keys. apply list_elem_of_fmap. by exists (k', v).
Qed.

(** *** Assignment *)

Lemma entries_replace_hidden k v o :
  hidden k = true -> entries (replace k v o) = entries o.
Proof.
  intros Hk. induction o as [|[k' v'] o IH]; [done|]. cbn [replace].
  destruct (String.eqb_spec k k') as [->|Hne].
  - by rewrite !entries_cons, Hk.
  - by rewrite !entries_cons, IH.
Qed.

Lemma entries_set_hidden k v o :
  hidden k = true -> entries (set k v o) = entries o.
Proof.
  intros Hk. unfold set. destruct (lookup k o).
  - by apply entries_replace_hidden.
  - rewrite (array_index_hidden _ Hk), entries_app.
    unfold entries at 2. simpl. rewrite Hk. simpl. apply app_nil_r.
Qed.

Lemma keys_set_hidden k v o : hidden k = true -> keys (set k v o) = keys o.
Proof. intros. unfold keys. by rewrite entries_set_hidden. Qed.

Lemma values_set_hidden k v o :
  hidden k = true -> values (set k v o) = values o.
Proof. intros. unfold values. by rewrite entries_set_hidden. Qed.

Lemma keys_replace k v o : keys (replace k v o) = keys o.
Proof.
  induction o as [|[k' v'] o IH]; cbn [replace]; [done|].
  destruct (String.eqb_spec k k') as [->|Hne]; [by rewrite !keys_cons|].
  by rewrite !keys_cons, IH.
Qed.

Lemma keys_insert_index n k v o :
  hidden k = false -> keys (insert_index n k v o) ≡ₚ k :: keys o.
Proof.
  intros Hk. induction o as [|[k' v'] o IH]; cbn [insert_index].
  - by rewrite keys_cons, Hk.
  - destruct (array_index k') as [m|];
      [destruct (m <? n)%N|]; rewrite ?(keys_cons k), ?Hk; try done.
    rewrite !(keys_cons k'). destruct (hidden k'); [done|].
    rewrite IH. apply Permutation_swap.
Qed.

Lemma keys_set_old k v o : k ∈ keys o -> keys (set k v o) = keys o.
Proof.
  intros [Hin Hk]%elem_of_keys. unfold set.
  apply lookup_is_Some in Hin as [? ->]. apply keys_replace.
Qed.

Lemma keys_set_new k v o :
  hidden k = false -> k ∉ keys o -> keys (set k v o) ≡ₚ k :: keys o.
Proof.
  intros Hk Hin. unfold set.
  assert (lookup k o = None) as ->.
  { rewrite <- get_lookup by done. by apply get_None. }
  destruct (array_index k) as [n|].
  - by apply keys_insert_index.
  - rewrite keys_app, keys_cons, Hk.
    symmetry. apply Permutation_cons_append.
Qed.

Lemma elem_of_keys_set x k v o :
  x ∈ keys (set k v o) <-> (x = k /\ hidden k = false) \/ x ∈ keys o.
Proof.
  destruct (hidden k) eqn:Hk.
  - rewrite keys_set_hidden by done. intuition congruence.
  - destruct (decide (k ∈ keys o)) as [Hin|Hin].
    + rewrite keys_set_old by done. split; [auto|]. by intros [[-> _]|?].
    + rewrite keys_set_new by done. rewrite elem_of_cons. tauto.
Qed.

Lemma NoDup_keys_set k v o : NoDup (keys o) -> NoDup (keys (set k v o)).
Proof.
  intros Hnd. destruct (hidden k) eqn:Hk.
  - by rewrite keys_set_hidden.
  - destruct (decide (k ∈ keys o)) as [Hin|Hin].
    + by rewrite keys_set_old.
    + rewrite keys_set_new by done. by apply NoDup_cons.
Qed.

Lemma length_keys_set_le k v o :
  (length (keys (set k v o)) <= S (length (keys o)))%nat.
Proof.
  destruct (hidden k) eqn:Hk.
  - rewrite keys_set_hidden by done. lia.
  - destruct (decide (k ∈ keys o)) as [Hin|Hin].
    + rewrite keys_set_old by done. lia.
    + by rewrite keys_set_new by done.
Qed.

Lemma get_set_eq k v o : hidden k = false -> get k (set k v o) = Some v.
Proof. intros Hk. rewrite get_lookup by done. apply lookup_set_eq. Qed.

Lemma get_set_ne k k' v o : k ≠ k' -> get k' (set k v o) = get k' o.
Proof.
  intros Hne. unfold get. destruct (hidden k'); [done|].
  by apply lookup_set_ne.
Qed.

Lemma get_set_hidden k k' v o :
  hidden k = true -> get k' (set k v o) = get k' o.
Proof.
  intros Hk. destruct (decide (k = k')) as [<-|Hne].
  - by rewrite !get_hidden.
  - by apply get_set_ne.
Qed.

Lemma proto_set_hidden k v o : hidden k = true -> proto (set k v o) = Some v.
Proof. intros ->%hidden_true. apply lookup_set_eq. Qed.

Lemma proto_set k v o : hidden k = false -> proto (set k v o) = proto o.
Proof.
  intros Hk%hidden_false. unfold proto. by apply lookup_set_ne.
Qed.

(** A new key that is no array index goes to the end. *)
Lemma keys_set_plain k v o :
  array_index k = None -> hidden k = false -> k ∉ keys o ->
  keys (set k v o) = keys o ++ [k].
Proof.
  intros Hk Hh Hin. unfold set.
  assert (lookup k o = None) as ->.
  { rewrite <- get_lookup by done. by apply get_None. }
  by rewrite Hk, keys_app, keys_cons, Hh.
Qed.

(** *** Deletion *)

Lemma keys_remove k o :
  keys (remove k o) = filter (fun x => x <> k) (keys o).
Proof.
  induction o as [|[k' v'] o IH]; [done|]. cbn [remove].
  destruct (String.eqb_spec k k') as [->|Hne].
  - rewrite keys_cons, IH. destruct (hidden k'); [done|].
    by rewrite filter_cons_False by (intros H; by apply H).
  - rewrite !keys_cons, IH. destruct (hidden k'); [done|].
    by rewrite filter_cons_True by (by intros ->).
Qed.

(** Deleting keeps the order of the other keys. *)
Lemma keys_del k o : keys (del k o) = filter (fun x => x <> k) (keys o).
Proof.
  unfold del. destruct (hidden k) eqn:Hk; [|apply keys_remove].
  symmetry. apply filter_all. apply Forall_forall.
  intros x Hx%keys_visible ->. congruence.
Qed.

Lemma elem_of_keys_del x k o : x ∈ keys (del k o) <-> x ∈ keys o /\ x ≠ k.
Proof. rewrite keys_del, list_elem_of_filter. tauto. Qed.

Lemma NoDup_keys_del k o : NoDup (keys o) -> NoDup (keys (del k o)).
Proof. intros. rewrite keys_del. by apply NoDup_filter. Qed.

Lemma get_del_eq k o : get k (del k o) = None.
Proof. apply get_None. intros [_ H]%elem_of_keys_del. done. Qed.

Lemma get_del_ne k k' o : k ≠ k' -> get k' (del k o) = get k' o.
Proof.
  intros Hne. unfold del. destruct (hidden k); [done|].
  unfold get. destruct (hidden k'); [done|]. by apply lookup_remove_ne.
Qed.

Lemma proto_del k o : proto (del k o) = proto o.
Proof.
  unfold del. destruct (hidden k) eqn:Hk; [done|].
  apply hidden_false in Hk. unfold proto. by apply lookup_remove_ne.
Qed.

Lemma length_remove k o : (length (remove k o) <= length o)%nat.
Proof.
  induction o as [|[k' v'] o IH]; simpl; [done|].
  destruct (String.eqb k k'); simpl; lia.
Qed.

Lemma length_del k o : (length (del k o) <= length o)%nat.
Proof. unfold del. destruct (hidden k); [done|apply length_remove]. Qed.

Lemma length_keys_del k o : (length (keys (del k o)) <= length (keys o))%nat.
Proof. rewrite keys_del. apply length_filter. Qed.

(** *** Changing every value *)

Lemma keys_map_values (f : V -> V) o : keys (map_values f o) = keys o.
Proof.
  induction o as [|[k' v'] o IH]; [done|]. unfold map_values in *. csimpl.
  destruct (hidden k') eqn:Hk; rewrite !keys_cons, Hk, IH; done.
Qed.

Lemma get_map_values (f : V -> V) k o :
  get k (map_values f o) = f <$> get k o.
Proof.
  unfold get. destruct (hidden k) eqn:Hk; [done|].
  by rewrite lookup_map_values, Hk.
Qed.

Lemma proto_map_values (f : V -> V) o : proto (map_values f o) = proto o.
Proof.
  unfold proto. rewrite lookup_map_values.
  change (hidden proto_key) with true. by destruct (lookup proto_key o).
Qed.

Lemma length_keys o : (length (keys o) <= length o)%nat.
Proof. unfold keys. rewrite length_fmap. apply List.filter_length_le. Qed.

Lemma length_map_values (f : V -> V) o : length (map_values f o) = length o.
Proof. apply length_fmap. Qed.

End Facts.

End ObjFacts.

Example keys_order :
  Obj.keys (Obj.set "2" 0 (Obj.set "b" 1 (Obj.set "10" 2 (Obj.set "a" 3 []))))
  = ["2"; "10"; "a"; "b"].
Proof. reflexivity. Qed.

(** An object assigned through [__proto__] is no own property. *)
Example keys_proto :
  Obj.keys (Obj.set "b" 2 (Obj.set "__proto__" 1 (Obj.set "a" 0 [])))
  = ["a"; "b"]
  /\ Obj.proto (Obj.set "b" 2 (Obj.set "__proto__" 1 (Obj.set "a" 0 [])))
     = Some 1
  /\ Obj.del "__proto__" (Obj.set "__proto__" 1 (Obj.set "a" 0 []))
     = Obj.set "__proto__" 1 (Obj.set "a" 0 []).
Proof. by repeat split. Qed.
(** ** The guard and the registry *)

Lemma bound_room_Some w c code pid r :
  bound_room w c = Some (code, pid, r) ->
  session_of w c = Bound code pid /\ code <> "" /\ rooms w !! code = Some r.
Proof.
  unfold bound_room. destruct (session_of w c) as [|code' pid']; [done|].
  destruct (String.eqb_spec code' "") as [|Hne]; [done|].
  destruct (rooms w !! code') eqn:Hr; [|done].
  intros [= -> -> ->]. done.
Qed.

Lemma bound_room_None w c :
  bound_room w c = None <->
  match session_of w c with
  | Unbound _ => True
  | Bound code _ => code = "" \/ rooms w !! code = None
  end.
Proof.
  unfold bound_room. destruct (session_of w c) as [|code pid]; [done|].
  destruct (String.eqb_spec code "") as [->|Hne]; [by split; auto|].
  destruct (rooms w !! code); intuition congruence.
Qed.

Lemma bound_room_set_room w c code pid r r' :
  bound_room w c = Some (code, pid, r) ->
  bound_room (set_room code r' w) c = Some (code, pid, r').
Proof.
  intros (Hs & Hc & Hr)%bound_room_Some. unfold bound_room.
  change (session_of (set_room code r' w) c) with (session_of w c).
  rewrite Hs. destruct (String.eqb_spec code ""); [done|].
  simpl. by rewrite lookup_insert_eq.
Qed.

Lemma world_ok_lookup w code r :
  world_ok w -> rooms w !! code = Some r -> room_ok r.
Proof. intros Hw Hr. exact (Hw _ _ Hr). Qed.

(** ** Runs *)

Lemma exec_reachable tr w w' :
  reachable w -> exec tr w = Some w' -> reachable w'.
Proof.
  revert w. induction tr as [|[e ev] tr IH]; simpl; intros w Hw.
  - by intros [= <-].
  - destruct (enabled w ev) eqn:He; [|done].
    destruct (step e ev w) as [w1 out| | |] eqn:Hs; try done.
    apply IH. by eapply reachable_step.
Qed.

Lemma world_after_reachable tr : runs tr = true -> reachable (world_after tr).
Proof.
  unfold runs, world_after. destruct (exec tr init) as [w|] eqn:H; [|done].
  intros _. simpl. eapply exec_reachable; [apply reachable_init | done].
Qed.

Ltac run_reachable :=
  apply world_after_reachable; vm_compute; reflexivity.

(** ** Sending to a roster *)

Lemma send_each_elem e (ps : Obj.t player) (m : string -> out_msg) id p :
  (id, p) ∈ Obj.entries ps -> is_open e (ws p) = true ->
  (ws p, m id) ∈ send_each e ps m.
Proof.
  intros Hin Ho. unfold send_each. apply list_elem_of_In, in_flat_map.
  exists (id, p). split; [by apply list_elem_of_In|].
  unfold sendTo. simpl. rewrite Ho. by left.
Qed.

Lemma fresh_code_fresh draws rs code :
  fresh_code draws rs = Some code -> rs !! code = None.
Proof.
  induction draws as [|d draws IH]; simpl; [done|].
  destruct (rs !! generateRoomCode d) eqn:H; [done|]. by intros [= <-].
Qed.

(** ** Reading and writing a roster entry *)

Section Slots.
Import ObjFacts.
Implicit Types (ps : Obj.t player) (k : string).

Lemma players_at_own k ps p :
  Obj.get k ps = Some p -> players_at k ps = SPlayer p.
Proof. unfold players_at. by intros ->. Qed.

Lemma write_player_own f k ps p :
  Obj.get k ps = Some p -> write_player f k ps = Written (Obj.set k (f p) ps).
Proof. intros H. unfold write_player. by rewrite (players_at_own _ _ _ H). Qed.

(** A name the roster answers to is an own key or one of the inherited
    names. *)
Lemma slot_truthy_names k ps :
  slot_truthy (players_at k ps) = true ->
  k ∈ Obj.keys ps \/ k ∈ inherited_names.
Proof.
  unfold players_at.
  destruct (Obj.get k ps) as [p|] eqn:Hg.
  { intros _. left. apply get_is_Some. eauto. }
  assert (slot_truthy (object_prototype_at k) = true -> k ∈ inherited_names)
    as Hop.
  { unfold object_prototype_at, inherited_names.
    destruct (Obj.hidden k) eqn:Hk.
    - apply hidden_true in Hk as ->. intros _. left.
    - unfold is_function_name. case_bool_decide; [|done].
      intros _. right. apply elem_of_app. by left. }
  destruct (Obj.proto ps) as [p0|]; [|auto].
  destruct (Obj.hidden k) eqn:Hk.
  { apply hidden_true in Hk as ->. intros _. right. left. }
  unfold player_field.
  repeat match goal with
         | |- context [String.eqb k ?s] =>
             destruct (String.eqb_spec k s) as [->|?];
               [intros _; right;
                apply (bool_decide_eq_true_1 _); vm_compute; reflexivity|]
         end.
  simpl. auto.
Qed.

(** A name the roster does not answer to is no key and not [__proto__]. *)
Lemma slot_falsy_free k ps :
  slot_truthy (players_at k ps) = false ->
  Obj.get k ps = None /\ Obj.hidden k = false.
Proof.
  unfold players_at. destruct (Obj.get k ps) eqn:Hg; [done|].
  intros H. split; [done|].
  destruct (Obj.hidden k) eqn:Hk; [|done].
  destruct (Obj.proto ps); [done|].
  unfold object_prototype_at in H. by rewrite Hk in H.
Qed.

Lemma write_player_keys f k ps ps' :
  write_player f k ps = Written ps' -> Obj.keys ps' = Obj.keys ps.
Proof.
  unfold write_player, players_at.
  destruct (Obj.get k ps) as [p|] eqn:Hg.
  { intros [= <-]. apply keys_set_old, get_is_Some. eauto. }
  assert (forall s, match s with
                    | SPlayer _ | SPrototype _ => False | _ => True end ->
          match s with
          | SPlayer p => Written (Obj.set k (f p) ps)
          | SPrototype p0 => Written (Obj.set Obj.proto_key (f p0) ps)
          | SObjectPrototype => Pollutes
          | SObject => Written ps
          | SValue v => if nullish v then Fails else Written ps
          | SUndefined => Fails
          end = Written ps' -> Obj.keys ps' = Obj.keys ps) as Hplain.
  { intros [] ?; try done; [by intros [= <-]|].
    destruct (nullish v); [done | by intros [= <-]]. }
  assert (match object_prototype_at k with
          | SPlayer _ | SPrototype _ => False | _ => True end) as Hop.
  { unfold object_prototype_at.
    destruct (Obj.hidden k); [done|]. by destruct (is_function_name k). }
  destruct (Obj.proto ps) as [p0|]; [|by apply Hplain].
  destruct (Obj.hidden k) eqn:Hk.
  { intros [= <-]. by apply keys_set_hidden. }
  apply Hplain. unfold player_field.
  repeat match goal with
         | |- context [String.eqb k ?s] => destruct (String.eqb k s); [done|]
         end.
  exact Hop.
Qed.

(** A write that goes through leaves every own entry but the one under its
    key as it was, and that one changed by [f]. *)
Lemma write_player_get f k ps ps' k' :
  write_player f k ps = Written ps' ->
  Obj.get k' ps'
  = if decide (k' = k) then f <$> Obj.get k' ps else Obj.get k' ps.
Proof.
  unfold write_player, players_at.
  destruct (Obj.get k ps) as [p|] eqn:Hg.
  { intros [= <-]. case_decide as Hk; [subst k'|].
    - rewrite get_set_eq by by eapply get_visible. by rewrite Hg.
    - by apply get_set_ne. }
  assert (Obj.get k' ps
          = if decide (k' = k) then f <$> Obj.get k' ps else Obj.get k' ps)
    as Hsame by (case_decide; [subst; by rewrite Hg | done]).
  assert (forall s, match s with
                    | SPlayer _ | SPrototype _ => False | _ => True end ->
          match s with
          | SPlayer p => Written (Obj.set k (f p) ps)
          | SPrototype p0 => Written (Obj.set Obj.proto_key (f p0) ps)
          | SObjectPrototype => Pollutes
          | SObject => Written ps
          | SValue v => if nullish v then Fails else Written ps
          | SUndefined => Fails
          end = Written ps' ->
          Obj.get k' ps'
          = if decide (k' = k) then f <$> Obj.get k' ps else Obj.get k' ps)
    as Hplain.
  { intros [] ?; try done; [by intros [= <-]|].
    destruct (nullish v); [done | by intros [= <-]]. }
  assert (match object_prototype_at k with
          | SPlayer _ | SPrototype _ => False | _ => True end) as Hop.
  { unfold object_prototype_at.
    destruct (Obj.hidden k); [done|]. by destruct (is_function_name k). }
  destruct (Obj.proto ps) as [p0|]; [|by apply Hplain].
  destruct (Obj.hidden k) eqn:Hk.
  { intros [= <-]. rewrite get_set_hidden by done. exact Hsame. }
  apply Hplain. unfold player_field.
  repeat match goal with
         | |- context [String.eqb k ?s] => destruct (String.eqb k s); [done|]
         end.
  exact Hop.
Qed.

End Slots.

(** ** join_room: the unique-name loop *)

Section UniqueName.
Import ObjFacts.
Variables (ps : Obj.t player) (baseName : string).

Lemma unique_name_Some fuel cur k id :
  unique_name fuel ps baseName cur k = Some id ->
  slot_truthy (players_at id ps) = false /\
  (id = cur \/
   slot_truthy (players_at cur ps) = true /\
   exists k', k <= k' /\ id = (baseName +:+ pretty k') /\
     forall j, k <= j < k' -> slot_truthy (players_at (baseName +:+ pretty j) ps) = true).
Proof.
  revert cur k. induction fuel as [|fuel IH]; intros cur k; simpl;
    destruct (slot_truthy (players_at cur ps)) eqn:Hh; try done.
  - intros [= ->]. split; [done | by left].
  - intros [Hid Hcases]%IH. split; [done|]. right. split; [done|].
    destruct Hcases as [->|(Hin & k' & Hle & -> & Hall)].
    + exists k. split; [lia|]. split; [done|]. intros j ?; lia.
    + exists k'. split; [lia|]. split; [done|].
      intros j Hj. destruct (decide (j = k)) as [->|]; [done|].
      apply Hall. lia.
  - intros [= ->]. split; [done | by left].
Qed.

Lemma unique_name_None fuel cur k :
  unique_name fuel ps baseName cur k = None ->
  slot_truthy (players_at cur ps) = true /\
  forall j, k <= j < k + fuel -> slot_truthy (players_at (baseName +:+ pretty j) ps) = true.
Proof.
  revert cur k. induction fuel as [|fuel IH]; intros cur k; simpl;
    destruct (slot_truthy (players_at cur ps)) eqn:Hh; try done.
  - intros _. split; [done | intros j ?; lia].
  - intros [Hin Hall]%IH. split; [done|].
    intros j Hj. destruct (decide (j = k)) as [->|]; [done|].
    apply Hall. lia.
Qed.

(** The suffixed names are pairwise different, so a roster cannot answer to
    more of them than it has keys and inherited names: the loop ends. *)
Lemma unique_name_total :
  is_Some
    (unique_name (S (length ps + length inherited_names)) ps baseName
       baseName 1).
Proof.
  destruct (unique_name _ _ _ _ _) eqn:Hn; [eauto|].
  apply unique_name_None in Hn as [_ Hall].
  set (n := S (length ps + length inherited_names)) in *.
  set (cands := (fun j : nat => baseName +:+ pretty j) <$> seq 1 n).
  assert (NoDup cands) as Hnd.
  { apply NoDup_fmap_2_strong; [|apply NoDup_seq].
    intros x y _ _ Heq. by apply (inj pretty), (inj (String.app baseName)). }
  assert (cands ⊆+ Obj.keys ps ++ inherited_names) as Hsub.
  { apply NoDup_submseteq; [done|].
    intros x (j & -> & Hj%elem_of_seq)%list_elem_of_fmap.
    apply elem_of_app, slot_truthy_names, Hall. lia. }
  apply submseteq_length in Hsub.
  unfold cands in Hsub. rewrite length_fmap, length_seq, length_app in Hsub.
  pose proof (length_keys ps). lia.
Qed.

End UniqueName.

(** ** The shape of a step *)

(** After a step, a room of the registry is as it was, or comes from the
    room that was there by one handler's change, or was just created under
    a code that was free. *)
Lemma step_rooms e ev w w' out code r' :
  step e ev w = Returns w' out ->
  rooms w' !! code = Some r' ->
  rooms w !! code = Some r'
  \/ (exists r, rooms w !! code = Some r /\ room_trans r r')
  \/ (rooms w !! code = None /\ exists c id col, r' = created_room c id col).
Proof.
  assert (forall code0 r0 r0',
            rooms w !! code0 = Some r0 -> room_trans r0 r0' ->
            <[code0 := r0']> (rooms w) !! code = Some r' ->
            rooms w !! code = Some r'
            \/ (exists r, rooms w !! code = Some r /\ room_trans r r')
            \/ (rooms w !! code = None
                /\ exists c id col, r' = created_room c id col)) as Hins.
  { intros code0 r0 r0' H0 Ht Hl.
    destruct (decide (code0 = code)) as [->|Hne].
    - rewrite lookup_insert_eq in Hl. injection Hl as <-. right. left. eauto.
    - rewrite lookup_insert_ne in Hl by done. by left. }
  destruct ev as [c m|c|]; simpl.
  - destruct m; simpl; try done;
      unfold on_create_room, on_join_room, on_player_ready, on_start_game,
        on_player_position, on_player_died, on_revive_player,
        on_player_finished, on_lobby_position;
      try (destruct (bound_room w c) as [[[code0 pid] r]|] eqn:Hb;
           [apply bound_room_Some in Hb as (_ & _ & Hr)
           | by intros [= <- _]; left]).
    + destruct (fresh_code _ _) as [code0|] eqn:Hf; [|done].
      apply fresh_code_fresh in Hf. intros [= <- _]. simpl.
      destruct (decide (code0 = code)) as [->|Hne].
      * rewrite lookup_insert_eq. intros [= <-]. right. right.
        split; [done|]. by eexists _, _, _.
      * rewrite lookup_insert_ne by done. by left.
    + destruct (rooms w !! toUpperCase _) as [r|] eqn:Hr;
        [|by intros [= <- _]; left].
      destruct (started r) eqn:Hst; [by intros [= <- _]; left|].
      destruct (Nat.leb_spec 10 (length (Obj.keys (players r))));
        [by intros [= <- _]; left|].
      destruct (unique_name _ _ _ _ _) as [id|] eqn:Hid; [|done].
      apply unique_name_Some in Hid as [Hfree _].
      intros [= <- _]. simpl. apply (Hins _ _ _ Hr).
      by apply trans_join.
    + destruct (write_player _ pid (players r)) as [ps'| |] eqn:Hp;
        try done.
      intros [= <- _]. simpl. apply (Hins _ _ _ Hr).
      by apply trans_ready.
    + unfold start_game_verdict.
      destruct (negb _); [by intros [= <- _]; left|].
      destruct (Nat.ltb_spec (size (ready_players r))
                  (length (Obj.keys (players r))));
        intros [= <- _]; [by left|].
      simpl. apply (Hins _ _ _ Hr). by apply trans_start.
    + intros [= <- _]. by left.
    + destruct (write_player _ pid (players r)) as [ps'| |] eqn:Hp;
        try done.
      intros [= <- _]. simpl. apply (Hins _ _ _ Hr).
      by apply trans_died.
    + destruct (pos_truthy _) eqn:Hd; [|by intros [= <- _]; left].
      destruct (write_player _ target_id (players r)) as [ps'| |] eqn:Hp;
        try done.
      intros [= <- _]. simpl. apply (Hins _ _ _ Hr).
      by apply trans_revive.
    + intros [= <- _]. simpl. apply (Hins _ _ _ Hr). apply trans_finish.
    + intros [= <- _]. by left.
    + intros [= <- _]. by left.
    + intros [= <- _]. by left.
  - unfold on_close.
    destruct (bound_room w c) as [[[code0 pid] r]|] eqn:Hb;
      [apply bound_room_Some in Hb as (_ & _ & Hr)
      | by intros [= <- _]; left].
    destruct (Obj.keys (players (leave_room pid r))) as [|newHost rest] eqn:Hk.
    + intros [= <- _]. simpl.
      destruct (decide (code0 = code)) as [->|Hne].
      * by rewrite lookup_delete_eq.
      * rewrite lookup_delete_ne, lookup_insert_ne by done. by left.
    + destruct (String.eqb_spec (host (leave_room pid r)) pid) as [Hh|Hh];
        intros [= <- _]; simpl; apply (Hins _ _ _ Hr).
      * by eapply trans_leave_host.
      * by eapply trans_leave.
  - unfold on_timeout, advanceLevel. destruct (timers w) as [|c rest];
      [by intros [= <- _]; left|].
    simpl.
    change (session_of
              {| rooms := rooms w; sessions := sessions w; timers := rest;
                 closed := closed w |} c) with (session_of w c).
    set (code0 := room_key (session_of w c)).
    destruct (rooms w !! code0) as [r|] eqn:Hr; [|by intros [= <- _]; left].
    pose proof (trans_advance r) as Ht.
    destruct (20 <? _)%Z; intros [= <- _]; simpl; by apply (Hins _ _ _ Hr).
Qed.

(** ** The win table *)

Section Wins.
Import ObjFacts.
Implicit Types (lw : Obj.t win) (id : string).




End Wins.

(** ** Each change keeps the rooms well formed *)

Lemma created_ok c id col : room_ok (created_room c id col).
Proof.
  split; try done; unfold created_room; cbn [players].
  - apply ObjFacts.NoDup_keys_set. constructor.
  - pose proof (ObjFacts.length_keys_set_le id (new_player c id col) []) as H.
    change (length (Obj.keys (@nil (string * player)))) with 0 in H. lia.
Qed.

Lemma trans_ok r r' : room_ok r -> room_trans r r' -> room_ok r'.
Proof.
  intros [Hnd Hcap Hlvl Hover] Ht.
  destruct Ht as [r c id col Hst Hlen Hfree|r id v ps' Hp| r Hall
                 |r id pos ps' Hp|r id ps' Hpos Hp|r id
                 |r id newHost rest Hk Hh|r id newHost rest Hk Hh|r];
    try (apply write_player_keys in Hp).
  - split; simpl; try done.
    + by apply ObjFacts.NoDup_keys_set.
    + pose proof (ObjFacts.length_keys_set_le id (new_player c id col)
                    (players r)). lia.
  - split; simpl; rewrite ?Hp; done.
  - split; simpl; rewrite ?ObjFacts.keys_map_values; done.
  - split; simpl; rewrite ?Hp; done.
  - split; simpl; rewrite ?Hp; done.
  - by split.
  - split; simpl; try done.
    + by apply ObjFacts.NoDup_keys_del.
    + pose proof (ObjFacts.length_keys_del id (players r)). lia.
  - split; simpl; try done.
    + by apply ObjFacts.NoDup_keys_del.
    + pose proof (ObjFacts.length_keys_del id (players r)). lia.
  - destruct (Z.ltb_spec 20 (current_level (next_room r))) as [Hlt|Hge];
      split; simpl in *; rewrite ?ObjFacts.keys_map_values; try done; lia.
Qed.

Lemma step_ok e ev w w' out :
  world_ok w -> step e ev w = Returns w' out -> world_ok w'.
Proof.
  intros Hok Hstep code r' Hr'.
  destruct (step_rooms _ _ _ _ _ _ _ Hstep Hr')
    as [Hr|[(r & Hr & Ht)|(_ & c & id & col & ->)]].
  - by apply (Hok code).
  - eapply trans_ok; [by apply (Hok code) | done].
  - apply created_ok.
Qed.

(** Every room of every reachable state is well formed. *)
Lemma reachable_ok w : reachable w -> world_ok w.
Proof.
  induction 1 as [|w e ev w' out Hreach IH _ Hstep].
  - apply map_Forall_empty.
  - by eapply step_ok.
Qed.
(** ** start_game *)

(** X20: start_game of a session bound to a live room succeeds exactly when
    the sender is the host and the ready set is not smaller than the roster
    (line 196 tests [size < length]); it then sets [started], puts the level
    at 1 and sends every player its game_start.  The host with fewer ready
    players gets the error reply, alone, and nothing changes; another sender
    gets nothing and nothing changes. *)
Theorem start_game_succeeds_iff e c w code pid r :
  bound_room w c = Some (code, pid, r) ->
  (start_game_verdict pid r = Started <->
     pid = host r /\
     length (Obj.keys (players r)) <= size (ready_players r))
  /\ (start_game_verdict pid r = Started ->
      exists r',
        on_message e c start_game w
        = Returns (set_room code r' w)
            (send_each e (players r')
               (fun id => game_start 1%Z (player_list (players r')) id))
        /\ started r' = true /\ current_level r' = 1%Z
        /\ Obj.keys (players r') = Obj.keys (players r)
        /\ forall id p,
             (id, p) ∈ Obj.entries (players r') -> is_open e (ws p) = true ->
             (ws p, game_start 1%Z (player_list (players r')) id)
             ∈ send_each e (players r')
                 (fun id => game_start 1%Z (player_list (players r')) id))
  /\ (pid = host r ->
      size (ready_players r) < length (Obj.keys (players r)) ->
      on_message e c start_game w
      = Returns w (sendTo e c (error "Not all players are ready")))
  /\ (pid <> host r -> on_message e c start_game w = Returns w []).
Proof.
  intros Hb.
  simpl. unfold on_start_game, start_game_verdict. rewrite Hb.
  destruct (String.eqb_spec pid (host r)) as [Hh|Hh]; simpl.
  - destruct (Nat.ltb_spec (size (ready_players r))
                (length (Obj.keys (players r)))) as [Hlt|Hge].
    + split; [split; [done | intros [_ ?]; lia]|].
      split; [done|]. split; [done|]. by intros [].
    + split; [split; [intros _; split; [done | lia] | done]|].
      split; [|split; [intros; lia | by intros []]].
      intros _. exists (start_room r).
      split; [done|]. split; [done|]. split; [done|].
      split; [apply ObjFacts.keys_map_values|].
      intros id p Hin Ho.
      exact (send_each_elem e _
               (fun id => game_start 1%Z
                            (player_list (players (start_room r))) id)
               id p Hin Ho).
  - split; [split; [done | by intros [? _]]|].
    split; [done|]. split; [done|]. done.
Qed.

Lemma start_game_succeeds_iff_witness :
  start_game_verdict "A" (the_room "AAAA" solo_lobby) = Started.
Proof.
  destruct (start_game_succeeds_iff aaaa 1 (world_after solo_lobby) "AAAA" "A"
              (the_room "AAAA" solo_lobby)) as [Hiff _].
  - vm_compute. reflexivity.
  - apply Hiff. split; vm_compute; [reflexivity | lia].
Defined.

(** C1, where the code leaves it: the creator of room AAAA calls itself
    [__proto__] and readies up.  Its entry is the prototype of the roster
    and no player of it, its id is in the ready set, and its start_game goes
    through, with a ready set of size 1 and a roster of size 0, and reaches
    nobody. *)
Theorem start_game_ready_above_roster :
  reachable (world_after proto_lobby)
  /\ bound_room (world_after proto_lobby) 1
     = Some ("AAAA", "__proto__", the_room "AAAA" proto_lobby)
  /\ host (the_room "AAAA" proto_lobby) = "__proto__"
  /\ size (ready_players (the_room "AAAA" proto_lobby)) = 1
  /\ Obj.keys (players (the_room "AAAA" proto_lobby)) = []
  /\ start_game_verdict "__proto__" (the_room "AAAA" proto_lobby) = Started
  /\ exists r',
       on_message aaaa 1 start_game (world_after proto_lobby)
       = Returns (set_room "AAAA" r' (world_after proto_lobby)) []
       /\ started r' = true.
Proof.
  split; [run_reachable|].
  do 5 (split; [vm_compute; reflexivity|]).
  eexists. split; vm_compute; reflexivity.
Qed.
(** ** join_room: the id a joiner gets *)

(** What the loop returns: an id the roster does not answer to, which is the
    requested name when the roster does not answer to it, and otherwise the
    name with the smallest suffix 1, 2, ... the roster does not answer
    to. *)
Lemma unique_name_spec (ps : Obj.t player) (requested : string) :
  exists id,
    unique_name (S (length ps + length inherited_names)) ps requested
      requested 1 = Some id
    /\ slot_truthy (players_at id ps) = false
    /\ Obj.get id ps = None
    /\ Obj.hidden id = false
    /\ (slot_truthy (players_at requested ps) = false -> id = requested)
    /\ (slot_truthy (players_at requested ps) = true ->
        exists k, 1 <= k /\ id = (requested +:+ pretty k) /\
          forall j, 1 <= j < k ->
            slot_truthy (players_at (requested +:+ pretty j) ps) = true).
Proof.
  destruct (unique_name_total ps requested) as [id Hid].
  exists id. split; [done|].
  apply unique_name_Some in Hid as [Hfree Hcases].
  pose proof (slot_falsy_free _ _ Hfree) as [Hg Hh].
  do 3 (split; [done|]). split.
  - intros Hreq. destruct Hcases as [->|[? _]]; [done | congruence].
  - intros Hreq. destruct Hcases as [->|(_ & k & ? & ? & ?)]; [congruence|].
    by exists k.
Qed.

(** C5, where the code leaves it: room AAAA holds the one player A, and a
    client asks to join under the name constructor.  The name is no key of
    the roster, yet the loop takes it for taken (the roster inherits a
    member of that name from [Object.prototype]) and the joiner becomes
    constructor1. *)
Theorem join_room_inherited_name_suffixed :
  Obj.keys (players (the_room "AAAA" solo_room)) = ["A"]
  /\ Obj.get "constructor" (players (the_room "AAAA" solo_room)) = None
  /\ exists w' out,
       on_message aaaa 2
         (join_room (Some "AAAA") (Some "constructor") VUndefined)
         (world_after solo_room) = Returns w' out
       /\ session_of w' 2 = Bound "AAAA" "constructor1"
       /\ roster "AAAA" w' = ["A"; "constructor1"].
Proof.
  do 2 (split; [vm_compute; reflexivity|]).
  eexists _, _. split; [vm_compute; reflexivity|].
  split; vm_compute; reflexivity.
Qed.

Example join_room_collision :
  option_map (fun r => Obj.keys (players r))
    (room_after "AAAA"
       (solo_room
        ++ [ from 2 (join_room (Some "aaaa") (Some "A") VUndefined);
             from 3 (join_room (Some "AAAA") (Some "A") VUndefined) ]))
  = Some ["A"; "A1"; "A2"].
Proof. vm_compute. reflexivity. Qed.
(** ** revive_player *)

(** revive_player of a target that has an own placeholder and an own roster
    entry: the placeholder is removed, the target is marked alive, and one
    player_revived is sent for every entry of the roster, carrying the
    revived id, the reviver's id and the position stored in the
    placeholder. *)
Lemma revive_player_own e c w code pid r t pos p :
  bound_room w c = Some (code, pid, r) ->
  Obj.get t (death_placeholders r) = Some pos ->
  Obj.get t (players r) = Some p ->
  exists r',
    on_message e c (revive_player t) w
    = Returns (set_room code r' w)
        (send_each e (players r')
           (fun _ => player_revived t pid (fst pos) (snd pos)))
    /\ Obj.get t (death_placeholders r') = None
    /\ Obj.get t (players r') = Some (set_alive true p)
    /\ Obj.keys (players r') = Obj.keys (players r)
    /\ r' = {| host := host r;
               players := Obj.set t (set_alive true p) (players r);
               started := started r;
               current_level := current_level r;
               level_wins := level_wins r;
               ready_players := ready_players r;
               finished_players := finished_players r;
               death_placeholders := Obj.del t (death_placeholders r) |}.
Proof.
  intros Hb Hpos Hp. simpl. unfold on_revive_player. rewrite Hb.
  unfold placeholder_at. rewrite Hpos. simpl.
  rewrite (write_player_own _ _ _ _ Hp).
  exists {| host := host r;
            players := Obj.set t (set_alive true p) (players r);
            started := started r;
            current_level := current_level r;
            level_wins := level_wins r;
            ready_players := ready_players r;
            finished_players := finished_players r;
            death_placeholders := Obj.del t (death_placeholders r) |}.
  split; [reflexivity|]. simpl.
  split; [apply ObjFacts.get_del_eq|].
  split; [apply ObjFacts.get_set_eq; by eapply ObjFacts.get_visible|].
  split; [|done].
  apply ObjFacts.keys_set_old, ObjFacts.get_is_Some. eauto.
Qed.

(** A target for which neither the placeholders nor their prototype hold
    anything: nothing is sent and nothing changes. *)
Lemma revive_player_absent e c w code pid r t :
  bound_room w c = Some (code, pid, r) ->
  pos_truthy (placeholder_at t (death_placeholders r)) = false ->
  on_message e c (revive_player t) w = Returns w [].
Proof.
  intros Hb Hpos. simpl. unfold on_revive_player. by rewrite Hb, Hpos.
Qed.

(** C4, where the code leaves it: in the started match of A and B nobody
    has died, and A asks to revive the target constructor.  The target has
    no placeholder, yet line 277 finds the member of that name that every
    object inherits from [Object.prototype], and both players are sent a
    player_revived without a position. *)
Theorem revive_player_inherited_target :
  death_placeholders (the_room "AAAA" duo_match) = []
  /\ on_message aaaa 1 (revive_player "constructor") (world_after duo_match)
     = Returns (world_after duo_match)
         [ (1, player_revived "constructor" "A" VUndefined VUndefined);
           (2, player_revived "constructor" "A" VUndefined VUndefined) ].
Proof. split; vm_compute; reflexivity. Qed.

Example revive_player_messages :
  last_out (duo_dead ++ [ from 1 (revive_player "B") ]) init
  = [ (1, player_revived "B" "A" (VNum 3) (VNum 4));
      (2, player_revived "B" "A" (VNum 3) (VNum 4)) ].
Proof. vm_compute. reflexivity. Qed.

(** ** Disconnect *)

Lemma broadcast_all e rs code m :
  broadcastToRoom e rs code m None
  = match rs !! code with
    | Some r => send_each e (players r) (fun _ => m)
    | None => []
    end.
Proof.
  unfold broadcastToRoom, send_each, Obj.values, sendTo.
  destruct (rs !! code) as [r|]; [|done].
  induction (Obj.entries (players r)) as [|[k p] ps IH]; [done|].
  csimpl. f_equal. exact IH.
Qed.


Lemma send_each_no_keys e (ps : Obj.t player) m :
  Obj.keys ps = [] -> send_each e ps m = [].
Proof.
  unfold send_each, Obj.keys. by intros ->%fmap_nil_inv.
Qed.



(** ** Operations of a session without a room *)

(** Each of the six operations sent by a session that has no room code, or
    whose room is no longer in the registry, returns without throwing, sends
    nothing and leaves the whole state as it was. *)
Lemma unbound_session_noop e c w m :
  post_join m = true ->
  bound_room w c = None ->
  on_message e c m w = Returns w [].
Proof.
  intros Hm Hb. destruct m; try done; simpl;
    unfold on_player_ready, on_player_position, on_player_died,
      on_revive_player, on_player_finished, on_lobby_position;
    by rewrite Hb.
Qed.

(** C7, where the code leaves it: connection 1 has created room AAAA as A
    and has then been refused a join_room under the name B.  Its session is
    still bound to AAAA, under an id that is no player of the room; the
    guard of line 167 lets its player_ready pass and line 170 throws. *)
Theorem player_ready_of_stranger_throws :
  session_of (world_after failed_join) 1 = Bound "AAAA" "B"
  /\ roster "AAAA" (world_after failed_join) = ["A"]
  /\ post_join (player_ready (VBool true)) = true
  /\ is_member (world_after failed_join) 1 = false
  /\ on_message aaaa 1 (player_ready (VBool true)) (world_after failed_join)
     = Throws.
Proof. repeat split; vm_compute; reflexivity. Qed.

(** The same session: player_died throws as well, and player_finished
    credits the id that is in no roster. *)
Example stranger_other_operations :
  on_message aaaa 1 (player_died (VNum 0) (VNum 0)) (world_after failed_join)
  = Throws
  /\ option_map level_wins
       (room_after "AAAA" (failed_join ++ [ from 1 player_finished ]))
     = Some [("B", WNum 1)].
Proof. vm_compute. repeat split; reflexivity. Qed.

(** ** Error replies *)

(** C8, the failing input: a session bound to room AAAA as A asks to join a
    room that does not exist under the name B.  The reply is the error, the
    registry is untouched, but the session's player id is now B. *)
Theorem join_room_error_overwrites_player_id :
  session_of (world_after solo_room) 1 = Bound "AAAA" "A"
  /\ exists w',
       on_message aaaa 1 (join_room (Some "ZZZZ") (Some "B") VUndefined)
         (world_after solo_room)
       = Returns w' [(1, error "Room not found")]
       /\ rooms w' = rooms (world_after solo_room)
       /\ session_of w' 1 = Bound "AAAA" "B".
Proof.
  split; [vm_compute; reflexivity|].
  eexists. split; [vm_compute; reflexivity|].
  split; vm_compute; reflexivity.
Qed.

(** Whatever join_room answers with an error, the registry and the timers are
    as before and the session carries the requested name. *)
Lemma join_room_refused e c rc n col w :
  let code := toUpperCase (unicode_upper e (str_or_else rc "")) in
  let requested := str_or_else n ("Player" +:+ pretty (name_draw e)) in
  (rooms w !! code = None
   \/ (exists r, rooms w !! code = Some r /\
         (started r = true \/ 10 <= length (Obj.keys (players r))))) ->
  exists w' msg,
    on_message e c (join_room rc n col) w = Returns w' (sendTo e c (error msg))
    /\ rooms w' = rooms w /\ timers w' = timers w /\ closed w' = closed w
    /\ session_of w' c = rename requested (session_of w c).
Proof.
  intros code requested H. simpl. unfold on_join_room. fold code requested.
  assert (forall s, session_of (with_session c s w) c = s) as Hs
    by (intros s; unfold session_of; simpl; by rewrite lookup_insert_eq).
  destruct H as [->|(r & -> & H)].
  - eexists _, _. split; [reflexivity|]. by rewrite Hs.
  - destruct (started r).
    + eexists _, _. split; [reflexivity|]. by rewrite Hs.
    + destruct H as [?|Hfull]; [done|].
      destruct (Nat.leb_spec 10 (length (Obj.keys (players r)))); [|lia].
      eexists _, _. split; [reflexivity|]. by rewrite Hs.
Qed.

(** ** Lifetime of a roster entry *)




(** ** The win table is never pruned *)








(** ** What a step sends *)









Example departed_player_in_game_over :
  last_out
    (duo_left ++ concat (replicate 20 [ from 1 player_finished; (aaaa, Timeout) ]))
    init
  = [ (1, game_over [("A", WNum 20); ("B", WNum 0)]) ].
Proof. vm_compute. reflexivity. Qed.

(** ** One win per level *)

(** What player_finished does to the win table: a credit exactly when the
    finished set has one element after the sender was added. *)
Lemma player_finished_credit e c w code pid r :
  bound_room w c = Some (code, pid, r) ->
  exists w' out r',
    on_message e c player_finished w = Returns w' out
    /\ rooms w' !! code = Some r'
    /\ finished_players r' = {[pid]} ∪ finished_players r
    /\ level_wins r'
       = if (size (finished_players r') =? 1)%nat
         then credit pid (level_wins r)
         else level_wins r.
Proof.
  intros Hb. simpl. unfold on_player_finished. rewrite Hb.
  eexists _, _, _. split; [reflexivity|]. simpl.
  split; [apply lookup_insert_eq|]. done.
Qed.

(** C2, the failing input: the only finisher reports the finish a second time
    while the level is still 1; the set still has one element, so the win is
    credited again and a second timer is set. *)
Theorem second_player_finished_credits_again :
  option_map (fun r => (current_level r, level_wins r))
    (room_after "AAAA" finished_once) = Some (1%Z, [("A", WNum 1)])
  /\ option_map (fun r => (current_level r, level_wins r))
       (room_after "AAAA" finished_twice) = Some (1%Z, [("A", WNum 2)])
  /\ last_out finished_twice init
     = [ (1, out_player_finished "A" true 1 1 [("A", WNum 2)]) ]
  /\ timers (world_after finished_twice) = [1; 1].
Proof. vm_compute. repeat split; reflexivity. Qed.

(** ** The level counter *)

(** C3 (as amended): in every reachable state the level of a room is at
    least 1, and it is above 20 only while the room is not started. *)
Theorem current_level_bounds w code r :
  reachable w ->
  rooms w !! code = Some r ->
  (1 <= current_level r)%Z
  /\ ((20 < current_level r)%Z -> started r = false).
Proof.
  intros Hreach Hr.
  destruct (world_ok_lookup _ _ _ (reachable_ok _ Hreach) Hr).
  by split.
Qed.

Lemma current_level_bounds_witness :
  (1 <= current_level (the_room "AAAA" rounds_21))%Z
  /\ ((20 < current_level (the_room "AAAA" rounds_21))%Z ->
      started (the_room "AAAA" rounds_21) = false).
Proof.
  apply (current_level_bounds (world_after rounds_21) "AAAA").
  - run_reachable.
  - vm_compute. reflexivity.
Defined.

(** C3 as stated fails: after the match is over a further finish sets a
    further timer, and the level goes to 22. *)
Lemma current_level_exceeds_21 :
  ~ (forall w code r,
       reachable w -> rooms w !! code = Some r ->
       (1 <= current_level r <= 21)%Z).
Proof.
  intros H.
  assert (reachable (world_after rounds_21)) as Hr
    by run_reachable.
  specialize (H (world_after rounds_21) "AAAA" (the_room "AAAA" rounds_21) Hr).
  assert (current_level (the_room "AAAA" rounds_21) = 22%Z) as Hl
    by (vm_compute; reflexivity).
  rewrite Hl in H. 
  assert (rooms (world_after rounds_21) !! "AAAA"
          = Some (the_room "AAAA" rounds_21)) as Hroom
    by (vm_compute; reflexivity).
  specialize (H Hroom). lia.
Qed.
(** ** Writing and deleting the same key *)

Section ObjRoundTrips.
Import Obj ObjFacts.
Context {V : Type}.
Implicit Types (o : t V) (k : string) (v : V).

Lemma remove_absent k o : k ∉ raw_keys o -> remove k o = o.
Proof.
  induction o as [|[k' v'] o IH]; [done|]. unfold raw_keys in *. csimpl.
  intros [Hne Hk]%not_elem_of_cons. rewrite (eqb_ne _ _ Hne).
  by rewrite IH.
Qed.

Lemma del_absent k o : k ∉ keys o -> del k o = o.
Proof.
  intros Hk. unfold del. destruct (hidden k) eqn:Hh; [done|].
  apply remove_absent. intros Hin. apply Hk, elem_of_keys. done.
Qed.

Lemma remove_insert_index n k v o :
  k ∉ raw_keys o -> remove k (insert_index n k v o) = o.
Proof.
  induction o as [|[k' v'] o IH]; intros Hk.
  - simpl. by rewrite eqb_refl.
  - pose proof Hk as [Hne Hk']%not_elem_of_cons.
    simpl in Hne. change (k ∉ raw_keys o) in Hk'. simpl.
    destruct (array_index k') as [m|]; [destruct (m <? n)%N|].
    + simpl. by rewrite (eqb_ne _ _ Hne), IH.
    + change (remove k ((k, v) :: (k', v') :: o)) with
        (if String.eqb k k then remove k ((k', v') :: o)
         else (k, v) :: remove k ((k', v') :: o)).
      rewrite eqb_refl. by apply remove_absent.
    + change (remove k ((k, v) :: (k', v') :: o)) with
        (if String.eqb k k then remove k ((k', v') :: o)
         else (k, v) :: remove k ((k', v') :: o)).
      rewrite eqb_refl. by apply remove_absent.
Qed.

Lemma remove_app k o1 o2 : remove k (o1 ++ o2) = remove k o1 ++ remove k o2.
Proof.
  induction o1 as [|[k' v'] o1 IH]; [done|]. simpl.
  destruct (String.eqb k k'); simpl; by rewrite IH.
Qed.

(** Deleting a key that was just added gives the object back, order
    included. *)
Lemma del_set_new k v o :
  hidden k = false -> k ∉ keys o -> del k (set k v o) = o.
Proof.
  intros Hh Hk. unfold del, set. rewrite Hh.
  assert (k ∉ raw_keys o) as Hraw
    by (intros Hin; apply Hk, elem_of_keys; done).
  pose proof Hraw as ->%lookup_None.
  destruct (array_index k).
  - by apply remove_insert_index.
  - rewrite remove_app, remove_absent by done. simpl.
    by rewrite eqb_refl, app_nil_r.
Qed.

Lemma replace_replace k v1 v2 o :
  replace k v2 (replace k v1 o) = replace k v2 o.
Proof.
  induction o as [|[k' v'] o IH]; [done|]. simpl.
  destruct (String.eqb_spec k k') as [->|Hne]; simpl.
  - by rewrite eqb_refl.
  - by rewrite (eqb_ne _ _ Hne), IH.
Qed.

Lemma replace_same k v o : lookup k o = Some v -> replace k v o = o.
Proof.
  induction o as [|[k' v'] o IH]; [done|]. simpl.
  destruct (String.eqb_spec k k') as [->|Hne].
  - by intros [= ->].
  - intros H. by rewrite IH.
Qed.

(** Writing a key twice is writing the second value. *)
Lemma set_set k v1 v2 o : k ∈ keys o -> set k v2 (set k v1 o) = set k v2 o.
Proof.
  intros [Hk _]%elem_of_keys. unfold set.
  pose proof Hk as [x ->]%lookup_is_Some.
  rewrite lookup_replace_eq by done.
  apply replace_replace.
Qed.

(** Writing the value that is there changes nothing. *)
Lemma set_same k v o : get k o = Some v -> set k v o = o.
Proof.
  intros Hk. pose proof (get_visible _ _ _ Hk) as Hh.
  rewrite get_lookup in Hk by done. unfold set. rewrite Hk.
  by apply replace_same.
Qed.

End ObjRoundTrips.
(** * Further properties of the server *)

(** ** What holds of every room of a run *)

(** X13: in every reachable state a room of the registry has at most 10
    players, under pairwise different ids. *)
Theorem roster_bounds w code r :
  reachable w ->
  rooms w !! code = Some r ->
  length (Obj.keys (players r)) <= 10
  /\ NoDup (Obj.keys (players r)).
Proof.
  intros Hreach Hr.
  destruct (world_ok_lookup _ _ _ (reachable_ok _ Hreach) Hr).
  by split.
Qed.

Lemma roster_bounds_witness :
  length (Obj.keys (players (the_room "AAAA" duo_lobby))) <= 10
  /\ NoDup (Obj.keys (players (the_room "AAAA" duo_lobby))).
Proof.
  apply (roster_bounds (world_after duo_lobby) "AAAA").
  - run_reachable.
  - vm_compute. reflexivity.
Defined.

(** X16: across one step, the level of a room that stays in the registry is
    unchanged, or one higher, or back at 1 in a room that is started. *)
Theorem level_changes_by_step e ev w w' out code r r' :
  step e ev w = Returns w' out ->
  rooms w !! code = Some r ->
  rooms w' !! code = Some r' ->
  current_level r' = current_level r
  \/ current_level r' = (current_level r + 1)%Z
  \/ (current_level r' = 1%Z /\ started r' = true).
Proof.
  intros Hstep Hr Hr'.
  destruct (step_rooms _ _ _ _ _ _ _ Hstep Hr')
    as [Hsame|[(r0 & Hr0 & Ht)|(Hnone & _)]].
  - left. congruence.
  - assert (r0 = r) as -> by congruence.
    destruct Ht; simpl; auto.
    destruct (20 <? _)%Z; simpl; auto.
  - congruence.
Qed.

Lemma level_changes_by_step_witness :
  current_level (the_room "AAAA" solo_match)
  = current_level (the_room "AAAA" solo_lobby)
  \/ current_level (the_room "AAAA" solo_match)
     = (current_level (the_room "AAAA" solo_lobby) + 1)%Z
  \/ (current_level (the_room "AAAA" solo_match) = 1%Z
      /\ started (the_room "AAAA" solo_match) = true).
Proof.
  apply (level_changes_by_step aaaa (Message 1 start_game)
           (world_after solo_lobby) (world_after solo_match)
           (last_out solo_match init) "AAAA");
    vm_compute; reflexivity.
Defined.
(** ** What a successful start_game resets *)

Section InitWins.
Import ObjFacts.
Implicit Types (lw : Obj.t win) (id : string).

Lemma start_win_get id lw lw' :
  Obj.get id lw' = Obj.get id lw -> start_win id lw' = start_win id lw.
Proof. unfold start_win, wins_at. by intros ->. Qed.

Lemma get_init_one_eq id lw : Obj.get id (init_one lw id) = start_win id lw.
Proof.
  unfold init_one, start_win, wins_at.
  destruct (Obj.get id lw) as [n|] eqn:Hn.
  - destruct n as [z|fn ones]; simpl; [|done].
    destruct (Z.eqb_spec z 0) as [->|]; simpl; [|done].
    rewrite get_set_eq by (by eapply get_visible). done.
  - destruct (Obj.hidden id) eqn:Hh; simpl; [done|].
    destruct (is_function_name id); [done|]. by apply get_set_eq.
Qed.

Lemma get_init_one_ne id id0 lw :
  id <> id0 -> Obj.get id (init_one lw id0) = Obj.get id lw.
Proof.
  intros Hne. unfold init_one.
  destruct (wins_at id0 lw) as [n| |]; [destruct (win_truthy n)| |];
    rewrite ?get_set_ne by done; done.
Qed.

Lemma start_win_init_one id id0 lw :
  start_win id (init_one lw id0) = start_win id lw.
Proof.
  destruct (decide (id = id0)) as [->|Hne].
  - unfold start_win at 1. unfold wins_at. rewrite get_init_one_eq.
    unfold start_win, wins_at.
    destruct (Obj.get id0 lw) as [n|]; [done|].
    by destruct (_ || _).
  - apply start_win_get. by apply get_init_one_ne.
Qed.

(** Every listed id gets what [start_win] says; the other entries are as
    they were. *)
Lemma get_init_level_wins ids lw id :
  Obj.get id (init_level_wins ids lw)
  = if decide (id ∈ ids) then start_win id lw else Obj.get id lw.
Proof.
  revert lw. induction ids as [|id0 ids IH]; intros lw; [done|].
  unfold init_level_wins in *. simpl. rewrite IH.
  rewrite start_win_init_one.
  destruct (decide (id ∈ ids)) as [Hin|Hin].
  - by rewrite decide_True by (by right).
  - destruct (decide (id = id0)) as [->|Hk].
    + rewrite decide_True by left. apply get_init_one_eq.
    + rewrite decide_False by (by intros [?|?]%elem_of_cons).
      by apply get_init_one_ne.
Qed.

End InitWins.

(** X14: a start_game that succeeds marks every player alive, empties the
    finished set and the death placeholders, and goes through the roster ids
    for the win table: an id that has an entry keeps it; an id without one
    gets the count 0 when its name is none an object of the server can
    inherit, and no entry when it is the name of a function of
    [Object.prototype].  Win entries of ids outside the roster, the ready
    set, the roster, the host, all sessions and the pending timers are as
    before. *)
Theorem start_game_resets e c w code pid r :
  bound_room w c = Some (code, pid, r) ->
  start_game_verdict pid r = Started ->
  exists r' out,
    on_message e c start_game w = Returns (set_room code r' w) out
    /\ (forall id p',
          Obj.get id (players r') = Some p' <->
          exists p, Obj.get id (players r) = Some p /\ p' = set_alive true p)
    /\ (forall id p', Obj.get id (players r') = Some p' -> alive p' = true)
    /\ finished_players r' = ∅
    /\ death_placeholders r' = []
    /\ (forall id,
          id ∈ Obj.keys (players r) ->
          match Obj.get id (level_wins r) with
          | Some n => Obj.get id (level_wins r') = Some n
          | None =>
              (id ∉ inherited_names ->
               Obj.get id (level_wins r') = Some (WNum 0))
              /\ (is_function_name id = true ->
                  Obj.get id (level_wins r') = None)
          end)
    /\ (forall id,
          id ∉ Obj.keys (players r) ->
          Obj.get id (level_wins r') = Obj.get id (level_wins r))
    /\ ready_players r' = ready_players r
    /\ host r' = host r
    /\ sessions (set_room code r' w) = sessions w
    /\ timers (set_room code r' w) = timers w.
Proof.
  intros Hb Hv. simpl. unfold on_start_game. rewrite Hb, Hv.
  eexists (start_room r), _. split; [reflexivity|]. simpl.
  assert (forall id p',
            Obj.get id (Obj.map_values (set_alive true) (players r)) = Some p'
            <-> exists p, Obj.get id (players r) = Some p
                          /\ p' = set_alive true p) as Hget.
  { intros id p'. rewrite ObjFacts.get_map_values.
    destruct (Obj.get id (players r)) as [p|]; simpl.
    - split; [intros [= <-]; eauto | by intros (? & [= <-] & ->)].
    - split; [done | by intros (? & ? & _)]. }
  split; [exact Hget|].
  split; [by intros id p' (p & _ & ->)%Hget|].
  split; [done|]. split; [done|].
  split.
  { intros id Hin. rewrite get_init_level_wins, decide_True by done.
    unfold start_win, wins_at.
    destruct (Obj.get id (level_wins r)); [done|].
    rewrite (ObjFacts.keys_visible _ _ Hin). simpl.
    unfold is_function_name. case_bool_decide as Hf; split; try done.
    intros Hi. destruct Hi. right. apply elem_of_app. by left. }
  split; [intros id Hin; rewrite get_init_level_wins; by rewrite decide_False|].
  done.
Qed.

Lemma start_game_resets_witness :
  exists r' out,
    on_message aaaa 1 start_game (world_after solo_lobby)
    = Returns (set_room "AAAA" r' (world_after solo_lobby)) out
    /\ (forall id p',
          Obj.get id (players r') = Some p' <->
          exists p,
            Obj.get id (players (the_room "AAAA" solo_lobby)) = Some p
            /\ p' = set_alive true p)
    /\ (forall id p', Obj.get id (players r') = Some p' -> alive p' = true)
    /\ finished_players r' = ∅
    /\ death_placeholders r' = []
    /\ (forall id,
          id ∈ Obj.keys (players (the_room "AAAA" solo_lobby)) ->
          match Obj.get id (level_wins (the_room "AAAA" solo_lobby)) with
          | Some n => Obj.get id (level_wins r') = Some n
          | None =>
              (id ∉ inherited_names ->
               Obj.get id (level_wins r') = Some (WNum 0))
              /\ (is_function_name id = true ->
                  Obj.get id (level_wins r') = None)
          end)
    /\ (forall id,
          id ∉ Obj.keys (players (the_room "AAAA" solo_lobby)) ->
          Obj.get id (level_wins r')
          = Obj.get id (level_wins (the_room "AAAA" solo_lobby)))
    /\ ready_players r' = ready_players (the_room "AAAA" solo_lobby)
    /\ host r' = host (the_room "AAAA" solo_lobby)
    /\ sessions (set_room "AAAA" r' (world_after solo_lobby))
       = sessions (world_after solo_lobby)
    /\ timers (set_room "AAAA" r' (world_after solo_lobby))
       = timers (world_after solo_lobby).
Proof.
  apply (start_game_resets aaaa 1 (world_after solo_lobby) "AAAA" "A"
           (the_room "AAAA" solo_lobby)); vm_compute; reflexivity.
Defined.

(** A creator called constructor starts its match: the win table gets no
    entry for it, and its first finish puts a text there. *)
Example start_game_inherited_id :
  option_map level_wins
    (room_after "AAAA"
       [ from 1 (create_room (Some "constructor") VUndefined);
         from 1 (player_ready (VBool true));
         from 1 start_game ])
  = Some []
  /\ option_map level_wins
       (room_after "AAAA"
          [ from 1 (create_room (Some "constructor") VUndefined);
            from 1 (player_ready (VBool true));
            from 1 start_game;
            from 1 player_finished ])
     = Some [("constructor", WText "constructor" 1)].
Proof. vm_compute. split; reflexivity. Qed.

(** ** Dying and being revived *)

Lemma set_room_same code r w : rooms w !! code = Some r -> set_room code r w = w.
Proof.
  intros Hr. destruct w as [rs ss ts cs]. unfold set_room, with_rooms.
  simpl in *. by rewrite insert_id.
Qed.

Lemma set_room_twice code r1 r2 w :
  set_room code r2 (set_room code r1 w) = set_room code r2 w.
Proof.
  unfold set_room, with_rooms. simpl. by rewrite insert_insert_eq.
Qed.

(** X17: when a player that is alive and has no placeholder reports its
    death and any member of the same room then revives it, the whole state
    is again what it was before the death, and the revival notice carries
    the position of the death. *)
Theorem died_then_revived_restores e1 e2 c c2 w code pid pid2 r p x y :
  bound_room w c = Some (code, pid, r) ->
  bound_room w c2 = Some (code, pid2, r) ->
  Obj.get pid (players r) = Some p ->
  alive p = true ->
  Obj.get pid (death_placeholders r) = None ->
  exists w1 out1,
    on_message e1 c (player_died x y) w = Returns w1 out1
    /\ on_message e2 c2 (revive_player pid) w1
       = Returns w
           (send_each e2 (players r)
              (fun _ => player_revived pid pid2 x y)).
Proof.
  intros Hb Hb2 Hp Ha Hnone%ObjFacts.get_None.
  pose proof Hb as (_ & _ & Hr)%bound_room_Some.
  pose proof (ObjFacts.get_visible _ _ _ Hp) as Hvis.
  assert (pid ∈ Obj.keys (players r)) as Hin
    by (apply ObjFacts.get_is_Some; eauto).
  simpl. unfold on_player_died. rewrite Hb, (write_player_own _ _ _ _ Hp).
  eexists _, _. split; [reflexivity|].
  unfold on_revive_player.
  rewrite (bound_room_set_room _ _ _ _ _ _ Hb2). simpl.
  unfold placeholder_at. rewrite ObjFacts.get_set_eq by done. simpl.
  rewrite (write_player_own _ _ _ (set_alive false p))
    by (by apply ObjFacts.get_set_eq).
  rewrite set_room_twice. simpl.
  rewrite set_set by done.
  assert (set_alive true (set_alive false p) = p) as ->
    by (destruct p; simpl in *; by subst).
  rewrite (set_same pid p (players r) Hp).
  rewrite (del_set_new pid (x, y) (death_placeholders r) Hvis Hnone).
  f_equal. destruct r. by apply set_room_same.
Qed.

Lemma died_then_revived_restores_witness :
  exists w1 out1,
    on_message aaaa 2 (player_died (VNum 3) (VNum 4)) (world_after duo_match)
    = Returns w1 out1
    /\ on_message aaaa 1 (revive_player "B") w1
       = Returns (world_after duo_match)
           (send_each aaaa (players (the_room "AAAA" duo_match))
              (fun _ => player_revived "B" "A" (VNum 3) (VNum 4))).
Proof.
  apply (died_then_revived_restores aaaa aaaa 2 1 (world_after duo_match)
           "AAAA" "B" "A" (the_room "AAAA" duo_match)
           (set_ready (VBool true) player_b)).
  - vm_compute. reflexivity.
  - vm_compute. reflexivity.
  - vm_compute. reflexivity.
  - reflexivity.
  - vm_compute. reflexivity.
Defined.

(** The hypothesis on the placeholder is needed: a run can lead to a player
    that is alive and has a placeholder a stranger left under its id, and
    then dying and being revived takes that placeholder away. *)
Example revival_drops_older_placeholder :
  reachable (world_after revenant)
  /\ bound_room (world_after revenant) 3
     = Some ("AAAA", "alive", the_room "AAAA" revenant)
  /\ option_map alive (Obj.get "alive" (players (the_room "AAAA" revenant)))
     = Some true
  /\ Obj.get "alive" (death_placeholders (the_room "AAAA" revenant))
     = Some (VNum 3, VNum 4)
  /\ Obj.get "alive"
       (death_placeholders
          (the_room "AAAA"
             (revenant
              ++ [ from 3 (player_died (VNum 5) (VNum 6));
                   from 3 (revive_player "alive") ])))
     = None.
Proof.
  split; [run_reachable|]. repeat split; vm_compute; reflexivity.
Qed.

(** ** Room codes *)

Lemma charAt_chars i :
  i < 32 ->
  exists a,
    charAt chars i = String a EmptyString
    /\ in_string a chars = true
    /\ in_string a "0O1I" = false
    /\ upper_ascii a = a.
Proof.
  intros Hi.
  do 32 (destruct i as [|i];
         [eexists; split; [reflexivity|]; by vm_compute|]).
  lia.
Qed.

(** X1: when every draw is an index into the alphabet, the generated code
    has four characters of the alphabet, none of them 0, O, 1 or I, and
    upper-casing leaves it as it is. *)
Theorem generateRoomCode_alphabet draw :
  (forall i, i < 4 -> draw i < 32) ->
  is_code (generateRoomCode draw) = true
  /\ unambiguous (generateRoomCode draw) = true
  /\ toUpperCase (generateRoomCode draw) = generateRoomCode draw.
Proof.
  intros H. unfold generateRoomCode. simpl.
  destruct (charAt_chars (draw 0)) as (a0 & -> & Ha0 & Hb0 & Hu0); [apply H; lia|].
  destruct (charAt_chars (draw 1)) as (a1 & -> & Ha1 & Hb1 & Hu1); [apply H; lia|].
  destruct (charAt_chars (draw 2)) as (a2 & -> & Ha2 & Hb2 & Hu2); [apply H; lia|].
  destruct (charAt_chars (draw 3)) as (a3 & -> & Ha3 & Hb3 & Hu3); [apply H; lia|].
  unfold is_code, unambiguous. simpl.
  by rewrite Ha0, Ha1, Ha2, Ha3, Hb0, Hb1, Hb2, Hb3, Hu0, Hu1, Hu2, Hu3.
Qed.

Lemma generateRoomCode_alphabet_witness :
  is_code (generateRoomCode (fun i => 7 * i + 3)) = true
  /\ unambiguous (generateRoomCode (fun i => 7 * i + 3)) = true
  /\ toUpperCase (generateRoomCode (fun i => 7 * i + 3))
     = generateRoomCode (fun i => 7 * i + 3).
Proof.
  apply (generateRoomCode_alphabet (fun i => 7 * i + 3)).
  intros i Hi. lia.
Defined.

(** ** create_room *)

Lemma fresh_code_first draws rs code :
  fresh_code draws rs = Some code <->
  exists pre d post,
    draws = pre ++ d :: post
    /\ generateRoomCode d = code
    /\ rs !! code = None
    /\ forall d', d' ∈ pre -> is_Some (rs !! generateRoomCode d').
Proof.
  induction draws as [|d draws IH]; simpl.
  - split; [done | by intros ([|? ?] & ? & ? & ? & _)].
  - destruct (rs !! generateRoomCode d) as [r0|] eqn:Hd.
    + rewrite IH. split.
      * intros (pre & d1 & post & -> & Hc & Hfree & Hpre).
        exists (d :: pre), d1, post. split; [done|]. split; [done|].
        split; [done|]. intros d' [->|Hin]%elem_of_cons; [eauto | auto].
      * intros ([|d0 pre] & d1 & post & Heq & Hc & Hfree & Hpre).
        -- simpl in Heq. injection Heq as -> ->. congruence.
        -- simpl in Heq. injection Heq as -> ->.
           exists pre, d1, post. split; [done|]. split; [done|].
           split; [done|]. intros d' Hin. apply Hpre. by right.
    + split.
      * intros [= <-]. exists [], d, draws. split; [done|]. split; [done|].
        split; [done|]. by intros d' ?%elem_of_nil.
      * intros ([|d0 pre] & d1 & post & Heq & Hc & Hfree & Hpre).
        -- simpl in Heq. injection Heq as -> ->. by rewrite Hc.
        -- simpl in Heq. injection Heq as -> ->.
           destruct (Hpre d0) as [? Hx]; [left|]. congruence.
Qed.

Lemma fresh_code_None draws rs :
  fresh_code draws rs = None ->
  forall d, d ∈ draws -> is_Some (rs !! generateRoomCode d).
Proof.
  induction draws as [|d0 draws IH]; simpl.
  - by intros _ d ?%elem_of_nil.
  - destruct (rs !! generateRoomCode d0) eqn:Hd; [|done].
    intros Hn d [->|Hin]%elem_of_cons; [by rewrite Hd | auto].
Qed.

Lemma str_or_else_nonempty s d : d <> "" -> str_or_else s d <> "".
Proof.
  intros Hd. unfold str_or_else. destruct s as [x|]; [|done].
  by destruct (String.eqb_spec x "").
Qed.

Lemma keys_set_empty {V} k (v : V) :
  Obj.keys (Obj.set k v []) = if Obj.hidden k then [] else [k].
Proof.
  unfold Obj.set. simpl.
  destruct (Obj.array_index k); simpl; by rewrite ObjFacts.keys_cons.
Qed.

Lemma proto_set_empty {V} k (v : V) :
  Obj.proto (Obj.set k v []) = if Obj.hidden k then Some v else None.
Proof.
  destruct (Obj.hidden k) eqn:Hk.
  - by apply ObjFacts.proto_set_hidden.
  - by rewrite ObjFacts.proto_set.
Qed.

Lemma on_create_room_returns e c n col w code :
  fresh_code (code_draws e) (rooms w) = Some code ->
  on_create_room e c n col w
  = Returns
      (with_session c (Bound code (str_or_else n "Player1"))
         (set_room code
            (created_room c (str_or_else n "Player1")
               (or_else col (VStr "#4dff7c"))) w))
      (sendTo e c (room_created code (str_or_else n "Player1") true)).
Proof. intros Hf. unfold on_create_room. by rewrite Hf. Qed.

(** X2: create_room takes the first code of the supplied draws that is
    free, puts there a room that is not started, at level 1, whose host and
    only player is the creator under the requested name (or Player1, never
    the empty string), binds the session to it and answers the creator
    alone.  Under the name [__proto__] the creator's entry becomes the
    prototype of the roster and the room has no player.  No room that was in
    the registry is touched, and no timer.  While every supplied code is
    taken the loop goes on drawing. *)
Theorem create_room_spec e c n col w :
  match fresh_code (code_draws e) (rooms w) with
  | None =>
      on_message e c (create_room n col) w = Loops
      /\ forall d, d ∈ code_draws e -> is_Some (rooms w !! generateRoomCode d)
  | Some code =>
      let id := str_or_else n "Player1" in
      rooms w !! code = None
      /\ (exists pre d post,
            code_draws e = pre ++ d :: post
            /\ generateRoomCode d = code
            /\ forall d', d' ∈ pre ->
                          is_Some (rooms w !! generateRoomCode d'))
      /\ id <> ""
      /\ exists w',
           on_message e c (create_room n col) w
           = Returns w' (sendTo e c (room_created code id true))
           /\ rooms w' !! code
              = Some (created_room c id (or_else col (VStr "#4dff7c")))
           /\ host (created_room c id (or_else col (VStr "#4dff7c"))) = id
           /\ Obj.keys
                (players (created_room c id (or_else col (VStr "#4dff7c"))))
              = (if Obj.hidden id then [] else [id])
           /\ Obj.proto
                (players (created_room c id (or_else col (VStr "#4dff7c"))))
              = (if Obj.hidden id
                 then Some (new_player c id (or_else col (VStr "#4dff7c")))
                 else None)
           /\ (forall code', code' <> code ->
                             rooms w' !! code' = rooms w !! code')
           /\ session_of w' c = Bound code id
           /\ (forall c', c' <> c -> session_of w' c' = session_of w c')
           /\ timers w' = timers w
  end.
Proof.
  simpl. unfold on_create_room.
  destruct (fresh_code (code_draws e) (rooms w)) as [code|] eqn:Hf.
  2: { split; [done|]. by apply fresh_code_None. }
  simpl. split; [by apply fresh_code_fresh in Hf|].
  split.
  { apply fresh_code_first in Hf as (pre & d & post & ? & ? & _ & ?).
    by exists pre, d, post. }
  split; [by apply str_or_else_nonempty|].
  eexists. split; [reflexivity|]. simpl.
  split; [by rewrite lookup_insert_eq|].
  split; [done|].
  split; [apply keys_set_empty|].
  split; [apply proto_set_empty|].
  split; [intros code' Hne; by rewrite lookup_insert_ne|].
  unfold session_of. simpl.
  split; [by rewrite lookup_insert_eq|].
  split; [intros c' Hne; by rewrite lookup_insert_ne|done].
Qed.

Lemma create_room_spec_witness :
  rooms (world_after solo_room) !! "BBBB" = None
  /\ (exists pre d post,
        code_draws (all_open [fun _ => 0; fun _ => 1]) = pre ++ d :: post
        /\ generateRoomCode d = "BBBB"
        /\ forall d', d' ∈ pre ->
              is_Some (rooms (world_after solo_room) !! generateRoomCode d'))
  /\ "Player1" <> ""
  /\ exists w',
       on_message (all_open [fun _ => 0; fun _ => 1]) 5
         (create_room None VUndefined) (world_after solo_room)
       = Returns w'
           (sendTo (all_open [fun _ => 0; fun _ => 1]) 5
              (room_created "BBBB" "Player1" true))
       /\ rooms w' !! "BBBB"
          = Some (created_room 5 "Player1" (VStr "#4dff7c"))
       /\ host (created_room 5 "Player1" (VStr "#4dff7c")) = "Player1"
       /\ Obj.keys (players (created_room 5 "Player1" (VStr "#4dff7c")))
          = ["Player1"]
       /\ Obj.proto (players (created_room 5 "Player1" (VStr "#4dff7c")))
          = None
       /\ (forall code', code' <> "BBBB" ->
             rooms w' !! code' = rooms (world_after solo_room) !! code')
       /\ session_of w' 5 = Bound "BBBB" "Player1"
       /\ (forall c', c' <> 5 ->
             session_of w' c' = session_of (world_after solo_room) c')
       /\ timers w' = timers (world_after solo_room).
Proof.
  exact (create_room_spec (all_open [fun _ => 0; fun _ => 1]) 5 None
           VUndefined (world_after solo_room)).
Defined.

(** The roster of the room a client creates as [__proto__]. *)
Example create_room_as_proto :
  roster "AAAA"
    (world_after [ from 1 (create_room (Some "__proto__") VUndefined) ])
  = []
  /\ option_map host
       (room_after "AAAA"
          [ from 1 (create_room (Some "__proto__") VUndefined) ])
     = Some "__proto__".
Proof. vm_compute. split; reflexivity. Qed.

(** ** broadcastToRoom *)

Lemma broadcast_iff e rs code m ex c' m' :
  (c', m') ∈ broadcastToRoom e rs code m ex <->
  m' = m
  /\ is_open e c' = true
  /\ ex <> Some c'
  /\ exists r p,
       rs !! code = Some r /\ p ∈ Obj.values (players r) /\ ws p = c'.
Proof.
  unfold broadcastToRoom. destruct (rs !! code) as [r|].
  2: { split; [by intros ?%elem_of_nil | by intros (_ & _ & _ & ? & ? & ? & _)]. }
  rewrite list_elem_of_In, in_flat_map. split.
  - intros (p & Hp%list_elem_of_In & Hs).
    destruct (decide (ex = Some (ws p))) as [Heq|Hne].
    + by rewrite bool_decide_eq_true_2 in Hs.
    + rewrite bool_decide_eq_false_2 in Hs by done. simpl in Hs.
      destruct (is_open e (ws p)) eqn:Ho; [|done].
      destruct Hs as [[= <- <-]|[]]. eauto 10.
  - intros (-> & Ho & Hex & r0 & p & [= <-] & Hp & <-).
    exists p. split; [by apply list_elem_of_In|].
    rewrite bool_decide_eq_false_2 by done. simpl. rewrite Ho. by left.
Qed.


(** X5: broadcastToRoom writes the given message, and nothing else, to
    exactly the sockets that belong to a player of the named room, are open
    and are not the excluded one; for a code that is no room it writes
    nothing. *)
Theorem broadcastToRoom_spec e rs code m ex c' m' :
  (c', m') ∈ broadcastToRoom e rs code m ex <->
  m' = m
  /\ is_open e c' = true
  /\ ex <> Some c'
  /\ exists r p,
       rs !! code = Some r /\ p ∈ Obj.values (players r) /\ ws p = c'.
Proof. apply broadcast_iff. Qed.

Lemma broadcastToRoom_spec_witness :
  (2, player_left "A")
  ∈ broadcastToRoom aaaa (rooms (world_after duo_match)) "AAAA"
      (player_left "A") (Some 1).
Proof.
  apply (broadcastToRoom_spec aaaa (rooms (world_after duo_match)) "AAAA"
           (player_left "A") (Some 1) 2 (player_left "A")).
  split; [reflexivity|]. split; [reflexivity|]. split; [discriminate|].
  exists (the_room "AAAA" duo_match), (set_ready (VBool true) player_b).
  split; [vm_compute; reflexivity|]. split; [|reflexivity].
  vm_compute. right. left.
Defined.

(** ** join_room *)

Section Entries.
Import ObjFacts.
Context {V : Type}.
Implicit Types (o : Obj.t V) (k : string).


Lemma entries_entries o : Obj.entries (Obj.entries o) = Obj.entries o.
Proof.
  induction o as [|[k v] o IH]; [done|]. rewrite entries_cons.
  destruct (Obj.hidden k) eqn:Hk; [done|].
  by rewrite entries_cons, Hk, IH.
Qed.

Lemma keys_entries o : Obj.keys (Obj.entries o) = Obj.keys o.
Proof. unfold Obj.keys. by rewrite entries_entries. Qed.


End Entries.





Lemma join_room_succeeds e c rc n col w r :
  rooms w !! toUpperCase (unicode_upper e (str_or_else rc "")) = Some r ->
  started r = false ->
  length (Obj.keys (players r)) < 10 ->
  exists id out,
    (id ∉ Obj.keys (players r))
    /\ Obj.hidden id = false
    /\ on_join_room e c rc n col w
       = Returns
           (with_session c
              (Bound (toUpperCase (unicode_upper e (str_or_else rc ""))) id)
              (set_room (toUpperCase (unicode_upper e (str_or_else rc "")))
                 (set_players
                    (Obj.set id
                       (new_player c id (or_else col (VStr "#ff6b6b")))
                       (players r)) r) w))
           out.
Proof.
  intros Hr Hst Hlen. unfold on_join_room. rewrite Hr, Hst.
  destruct (Nat.leb_spec 10 (length (Obj.keys (players r)))); [lia|].
  destruct (unique_name_spec (players r)
              (str_or_else n ("Player" +:+ pretty (name_draw e))))
    as (id & Hid & _ & Hfree%ObjFacts.get_None & Hvis & _).
  rewrite Hid. by eexists id, _.
Qed.

(** X4: a room that was just created can be joined under its code in any
    letter case: when the requested code upper-cases to the code
    create_room answered, the join of another connection succeeds, leaves
    the creator as host and adds the joiner, under an id other than the
    creator's, to the roster: the creator and the joiner, or the joiner
    alone when the creator called itself [__proto__]. *)
Theorem create_then_join e1 e2 c1 c2 n1 col1 rc n2 col2 w code :
  fresh_code (code_draws e1) (rooms w) = Some code ->
  toUpperCase (unicode_upper e2 (str_or_else rc "")) = code ->
  exists w1 out1 w2 out2 id2 r2,
    on_message e1 c1 (create_room n1 col1) w = Returns w1 out1
    /\ on_message e2 c2 (join_room rc n2 col2) w1 = Returns w2 out2
    /\ session_of w2 c2 = Bound code id2
    /\ rooms w2 !! code = Some r2
    /\ host r2 = str_or_else n1 "Player1"
    /\ Obj.keys (players r2)
       ≡ₚ (if Obj.hidden (str_or_else n1 "Player1") then []
           else [str_or_else n1 "Player1"]) ++ [id2]
    /\ id2 <> str_or_else n1 "Player1"
    /\ started r2 = false.
Proof.
  intros Hf Hrc.
  pose proof (on_create_room_returns e1 c1 n1 col1 w code Hf) as Hret1.
  set (w1 := with_session c1 (Bound code (str_or_else n1 "Player1"))
               (set_room code
                  (created_room c1 (str_or_else n1 "Player1")
                     (or_else col1 (VStr "#4dff7c"))) w)) in *.
  assert (rooms w1 !! code
          = Some (created_room c1 (str_or_else n1 "Player1")
                    (or_else col1 (VStr "#4dff7c")))) as Hroom
    by (unfold w1; simpl; by rewrite lookup_insert_eq).
  assert (Obj.keys
            (players (created_room c1 (str_or_else n1 "Player1")
                        (or_else col1 (VStr "#4dff7c"))))
          = if Obj.hidden (str_or_else n1 "Player1") then []
            else [str_or_else n1 "Player1"]) as Hkeys
    by apply keys_set_empty.
  rewrite <- Hrc in Hroom.
  destruct (join_room_succeeds e2 c2 rc n2 col2 w1 _ Hroom eq_refl)
    as (id2 & out2 & Hfree & Hvis & Hret2).
  { rewrite Hkeys. destruct (Obj.hidden _); simpl; lia. }
  pose proof Hfree as Hfree'. rewrite Hkeys in Hfree'. rewrite Hrc in Hret2.
  eexists w1, _, _, out2, id2, _.
  split; [exact Hret1|]. split; [exact Hret2|].
  split; [unfold session_of; simpl; by rewrite lookup_insert_eq|].
  split; [simpl; by rewrite lookup_insert_eq|].
  cbn [host started players set_players].
  split; [done|]. split.
  - rewrite (ObjFacts.keys_set_new id2 _ _ Hvis Hfree).
    rewrite Hkeys. apply Permutation_cons_append.
  - split; [|done]. intros ->.
    destruct (Obj.hidden (str_or_else n1 "Player1")); [congruence|].
    apply Hfree'. left.
Qed.

Lemma create_then_join_witness :
  exists w1 out1 w2 out2 id2 r2,
    on_message aaaa 1 (create_room (Some "A") VUndefined) init
    = Returns w1 out1
    /\ on_message aaaa 2 (join_room (Some "aAaA") (Some "A") VUndefined) w1
       = Returns w2 out2
    /\ session_of w2 2 = Bound "AAAA" id2
    /\ rooms w2 !! "AAAA" = Some r2
    /\ host r2 = "A"
    /\ Obj.keys (players r2) ≡ₚ ["A"; id2]
    /\ id2 <> "A"
    /\ started r2 = false.
Proof.
  apply (create_then_join aaaa aaaa 1 2 (Some "A") VUndefined (Some "aAaA")
           (Some "A") VUndefined init "AAAA"); reflexivity.
Defined.

(** ** Rooms are isolated *)

(** X8: a step changes the registry under at most one code, the code of the
    room it works on; every other room, and every code that is free, is
    after the step what it was before. *)
Theorem room_isolation e ev w w' out code :
  step e ev w = Returns w' out ->
  target_room e w ev <> Some code ->
  rooms w' !! code = rooms w !! code.
Proof.
  destruct ev as [c m|c|]; simpl.
  - destruct m; simpl; try done;
      unfold on_create_room, on_join_room, on_player_ready, on_start_game,
        on_player_position, on_player_died, on_revive_player,
        on_player_finished, on_lobby_position;
      try (destruct (bound_room w c) as [[[code0 pid] r]|] eqn:Hb;
           [|by intros [= <- _]]).
    + destruct (fresh_code _ _) as [code0|]; [|done].
      intros [= <- _] Hne. simpl. apply lookup_insert_ne. congruence.
    + intros Hret Hne. revert Hret.
      destruct (rooms w !! toUpperCase _) as [r|]; [|by intros [= <- _]].
      destruct (started r); [by intros [= <- _]|].
      destruct (10 <=? _)%nat; [by intros [= <- _]|].
      destruct (unique_name _ _ _ _ _); [|done].
      intros [= <- _]. simpl. apply lookup_insert_ne. congruence.
    + destruct (write_player _ pid (players r)); try done.
      intros [= <- _] Hne. simpl. apply lookup_insert_ne. congruence.
    + destruct (start_game_verdict pid r); intros [= <- _] Hne; try done.
      simpl. apply lookup_insert_ne. congruence.
    + by intros [= <- _].
    + destruct (write_player _ pid (players r)); try done.
      intros [= <- _] Hne. simpl. apply lookup_insert_ne. congruence.
    + destruct (pos_truthy _);
        [|by intros [= <- _]].
      destruct (write_player _ target_id (players r)); try done.
      intros [= <- _] Hne. simpl. apply lookup_insert_ne. congruence.
    + intros [= <- _] Hne. simpl. apply lookup_insert_ne. congruence.
    + by intros [= <- _].
    + by intros [= <- _].
    + by intros [= <- _].
  - unfold on_close.
    destruct (bound_room w c) as [[[code0 pid] r]|] eqn:Hb;
      [|by intros [= <- _]].
    destruct (Obj.keys _) as [|newHost rest].
    + intros [= <- _] Hne. simpl.
      rewrite lookup_delete_ne, lookup_insert_ne by congruence. done.
    + destruct (String.eqb _ _); intros [= <- _] Hne; simpl;
        apply lookup_insert_ne; congruence.
  - unfold on_timeout, advanceLevel. destruct (timers w) as [|c rest];
      [by intros [= <- _]|].
    simpl.
    change (session_of
              {| rooms := rooms w; sessions := sessions w; timers := rest;
                 closed := closed w |} c) with (session_of w c).
    set (code0 := room_key (session_of w c)).
    destruct (rooms w !! code0) as [r|]; [|by intros [= <- _]].
    destruct (20 <? _)%Z; intros [= <- _] Hne; simpl;
      apply lookup_insert_ne; congruence.
Qed.

Lemma room_isolation_witness :
  rooms (world_after moved_on) !! "AAAA"
  = rooms (world_after (solo_room
                        ++ [ (bbbb, Message 1 (create_room (Some "A") VUndefined)) ]))
    !! "AAAA".
Proof.
  apply (room_isolation aaaa (Close 1)
           (world_after (solo_room
                         ++ [ (bbbb, Message 1
                                       (create_room (Some "A") VUndefined)) ]))
           (world_after moved_on) [] "AAAA").
  - vm_compute. reflexivity.
  - vm_compute. discriminate.
Defined.

(** ** The closure variables *)

(** X9: a step changes the session of no connection but the one that sends
    create_room or join_room, and a session that is bound to a room code
    stays bound to one: nothing ever sets [playerRoomCode] back to
    [null]. *)
Theorem session_stability e ev w w' out c' :
  step e ev w = Returns w' out ->
  ((forall m, ev = Message c' m -> binds_session m = false) ->
   session_of w' c' = session_of w c')
  /\ (forall code id,
        session_of w c' = Bound code id ->
        exists code' id', session_of w' c' = Bound code' id').
Proof.
  assert (forall c s, session_of (with_session c s w) c = s) as Hown
    by (intros c s; unfold session_of; simpl; by rewrite lookup_insert_eq).
  assert (forall c s, c <> c' ->
            session_of (with_session c s w) c' = session_of w c') as Hother
    by (intros c s Hne; unfold session_of; simpl; by rewrite lookup_insert_ne).
  assert (forall w0 : world, sessions w0 = sessions w ->
            (session_of w0 c' = session_of w c')
            /\ (forall code id,
                  session_of w c' = Bound code id ->
                  exists code' id', session_of w0 c' = Bound code' id'))
    as Hkeep.
  { intros w0 Hs. unfold session_of. rewrite Hs. split; [done|eauto]. }
  assert (forall c s w0,
            sessions w0 = <[c := s]> (sessions w) ->
            (c = c' -> forall code id, session_of w c' = Bound code id ->
                       exists code' id', s = Bound code' id') ->
            forall m, ev = Message c m -> binds_session m = true ->
            ((forall m, ev = Message c' m -> binds_session m = false) ->
             session_of w0 c' = session_of w c')
            /\ (forall code id,
                  session_of w c' = Bound code id ->
                  exists code' id', session_of w0 c' = Bound code' id'))
    as Hset.
  { intros c s w0 Hs Hb m Hev Hm.
    destruct (decide (c = c')) as [->|Hne].
    - assert (session_of w0 c' = s) as Hs0
        by (unfold session_of; by rewrite Hs, lookup_insert_eq).
      split.
      + intros Hno. specialize (Hno m Hev). congruence.
      + intros code id Hbound. rewrite Hs0. by apply (Hb eq_refl code id).
    - assert (session_of w0 c' = session_of w c') as Hs0
        by (unfold session_of; by rewrite Hs, lookup_insert_ne).
      split; [done|].
      intros code id Hbound. exists code, id. by rewrite Hs0. }
  intros Hstep.
  cut ((session_of w' c' = session_of w c'
        /\ (forall code id,
              session_of w c' = Bound code id ->
              exists code' id', session_of w' c' = Bound code' id'))
       \/ exists c s m,
            sessions w' = <[c := s]> (sessions w)
            /\ (c = c' -> forall code id, session_of w c' = Bound code id ->
                          exists code' id', s = Bound code' id')
            /\ ev = Message c m /\ binds_session m = true).
  { intros [[H1 H2]|(c & s & m & Hs & Hb & Hev & Hm)]; [by split|].
    by eapply Hset. }
  revert Hstep. destruct ev as [c m|c|]; simpl.
  - destruct m; simpl; try done;
      unfold on_create_room, on_join_room, on_player_ready, on_start_game,
        on_player_position, on_player_died, on_revive_player,
        on_player_finished, on_lobby_position;
      try (destruct (bound_room w c) as [[[code0 pid] r]|] eqn:Hb;
           [|by intros [= <- _]; left; apply Hkeep]).
    + destruct (fresh_code _ _) as [code0|]; [|done].
      intros [= <- _]. right. eexists c, _, _. split; [reflexivity|].
      split; [eauto|done].
    + assert (forall id, c = c' -> forall code id0,
                session_of w c' = Bound code id0 ->
                exists code' id', rename id (session_of w c) = Bound code' id')
        as Hren.
      { intros id -> code id0 ->. simpl. eauto. }
      destruct (rooms w !! toUpperCase _) as [r|];
        [|intros [= <- _]; right; eexists c, _, _;
          split; [reflexivity|]; split; [apply Hren|done]].
      destruct (started r);
        [intros [= <- _]; right; eexists c, _, _;
         split; [reflexivity|]; split; [apply Hren|done]|].
      destruct (10 <=? _)%nat;
        [intros [= <- _]; right; eexists c, _, _;
         split; [reflexivity|]; split; [apply Hren|done]|].
      destruct (unique_name _ _ _ _ _); [|done].
      intros [= <- _]. right. eexists c, _, _. split; [reflexivity|].
      split; [eauto|done].
    + destruct (write_player _ pid (players r)); try done.
      intros [= <- _]. left. by apply Hkeep.
    + destruct (start_game_verdict pid r); intros [= <- _]; left;
        by apply Hkeep.
    + intros [= <- _]. left. by apply Hkeep.
    + destruct (write_player _ pid (players r)); try done.
      intros [= <- _]. left. by apply Hkeep.
    + destruct (pos_truthy _);
        [|intros [= <- _]; left; by apply Hkeep].
      destruct (write_player _ target_id (players r)); try done.
      intros [= <- _]. left. by apply Hkeep.
    + intros [= <- _]. left. by apply Hkeep.
    + intros [= <- _]. left. by apply Hkeep.
    + intros [= <- _]. left. by apply Hkeep.
    + intros [= <- _]. left. by apply Hkeep.
  - unfold on_close.
    destruct (bound_room w c) as [[[code0 pid] r]|];
      [|intros [= <- _]; left; by apply Hkeep].
    destruct (Obj.keys _) as [|newHost rest];
      [intros [= <- _]; left; by apply Hkeep|].
    destruct (String.eqb _ _); intros [= <- _]; left; by apply Hkeep.
  - unfold on_timeout, advanceLevel. destruct (timers w) as [|c rest];
      [intros [= <- _]; left; by apply Hkeep|].
    simpl.
    change (session_of
              {| rooms := rooms w; sessions := sessions w; timers := rest;
                 closed := closed w |} c) with (session_of w c).
    set (code0 := room_key (session_of w c)).
    destruct (rooms w !! code0) as [r|];
      [|intros [= <- _]; left; by apply Hkeep].
    destruct (20 <? _)%Z; intros [= <- _]; left; by apply Hkeep.
Qed.

Lemma session_stability_witness :
  session_of (world_after failed_join) 2 = session_of (world_after solo_room) 2.
Proof.
  apply (session_stability aaaa
           (Message 1 (join_room (Some "ZZZZ") (Some "B") VUndefined))
           (world_after solo_room) (world_after failed_join)
           [(1, error "Room not found")] 2).
  - vm_compute. reflexivity.
  - intros m H. discriminate H.
Defined.

(** ** Who is written to *)

Lemma sendTo_open e c m c' m' :
  (c', m') ∈ sendTo e c m -> c' = c /\ m' = m /\ is_open e c' = true.
Proof.
  unfold sendTo. destruct (is_open e c) eqn:Ho.
  - by intros [= -> ->]%list_elem_of_singleton.
  - by intros ?%elem_of_nil.
Qed.

Lemma send_each_open e (ps : Obj.t player) f c' m' :
  (c', m') ∈ send_each e ps f ->
  is_open e c' = true
  /\ exists id p, (id, p) ∈ Obj.entries ps /\ ws p = c'.
Proof.
  unfold send_each. intros ([id p] & Hin & Hs)%list_elem_of_In%in_flat_map.
  apply list_elem_of_In, sendTo_open in Hs as (-> & _ & Ho).
  split; [done|]. exists id, p. by rewrite list_elem_of_In.
Qed.

Lemma broadcast_open e rs code m ex c' m' :
  (c', m') ∈ broadcastToRoom e rs code m ex ->
  is_open e c' = true
  /\ exists r id p,
       rs !! code = Some r /\ (id, p) ∈ Obj.entries (players r) /\ ws p = c'.
Proof.
  intros (_ & Ho & _ & r & p & Hr & Hp & Hws)%broadcast_iff.
  split; [done|].
  apply list_elem_of_fmap in Hp as ([id p0] & -> & Hin). by exists r, id, p0.
Qed.

Lemma to_sender e c msg c' m m1 (P : Prop) :
  (c', m) ∈ sendTo e c m1 ->
  is_open e c' = true /\ ((exists m0, Message c msg = Message c' m0) \/ P).
Proof. intros (-> & _ & Ho)%sendTo_open. split; [done|]. left. eauto. Qed.

(** X7: every frame a step writes goes to a socket that is open, and that
    socket is the sender's or belongs to a player who, after the step, is
    in the room the step works on. *)
Theorem frames_go_to_open_members e ev w w' out c' m :
  step e ev w = Returns w' out ->
  (c', m) ∈ out ->
  is_open e c' = true
  /\ ((exists m0, ev = Message c' m0)
      \/ exists code r' id p,
           target_room e w ev = Some code
           /\ rooms w' !! code = Some r'
           /\ (id, p) ∈ Obj.entries (players r') /\ ws p = c').
Proof.
  destruct ev as [c msg|c|]; simpl.
  - destruct msg; simpl; try done;
      unfold on_create_room, on_join_room, on_player_ready, on_start_game,
        on_player_position, on_player_died, on_revive_player,
        on_player_finished, on_lobby_position;
      try (destruct (bound_room w c) as [[[code pid] r]|] eqn:Hb;
           [|by intros [= <- <-] ?%elem_of_nil]).
    + destruct (fresh_code _ _); [|done]. intros [= <- <-] Hin.
      by apply (to_sender _ _ _ _ _ _ _ Hin).
    + destruct (rooms w !! toUpperCase _) as [r|];
        [|intros [= <- <-] Hin; by apply (to_sender _ _ _ _ _ _ _ Hin)].
      destruct (started r); [intros [= <- <-] Hin; by apply (to_sender _ _ _ _ _ _ _ Hin)|].
      destruct (10 <=? _)%nat; [intros [= <- <-] Hin; by apply (to_sender _ _ _ _ _ _ _ Hin)|].
      destruct (unique_name _ _ _ _ _); [|done].
      intros [= <- <-] [Hin|Hin]%elem_of_app; [by apply (to_sender _ _ _ _ _ _ _ Hin)|].
      apply broadcast_open in Hin as (Ho & r0 & id & p & Hr0 & Hp & Hws).
      split; [done|]. right. by eexists _, r0, id, p.
    + destruct (write_player _ pid (players r)) as [ps'| |]; try done.
      intros [= <- <-] Hin.
      apply broadcast_open in Hin as (Ho & r0 & id & p & Hr0 & Hp & Hws).
      split; [done|]. right. by exists code, r0, id, p.
    + destruct (start_game_verdict pid r); intros [= <- <-] Hin.
      * by apply elem_of_nil in Hin.
      * by apply (to_sender _ _ _ _ _ _ _ Hin).
      * apply send_each_open in Hin as (Ho & id & p & Hp & Hws).
        split; [done|]. right. exists code, (start_room r), id, p.
        simpl. by rewrite lookup_insert_eq.
    + intros [= <- <-] Hin.
      apply broadcast_open in Hin as (Ho & r0 & id & p & Hr0 & Hp & Hws).
      split; [done|]. right. by exists code, r0, id, p.
    + destruct (write_player _ pid (players r)) as [ps'| |]; try done.
      intros [= <- <-] [Hin|Hin]%elem_of_app; [|by apply (to_sender _ _ _ _ _ _ _ Hin)].
      apply broadcast_open in Hin as (Ho & r0 & id & p & Hr0 & Hp & Hws).
      split; [done|]. right. by exists code, r0, id, p.
    + destruct (pos_truthy _);
        [|by intros [= <- <-] ?%elem_of_nil].
      destruct (write_player _ target_id (players r)) as [ps'| |]; try done.
      intros [= <- <-] Hin.
      apply send_each_open in Hin as (Ho & id & p & Hp & Hws).
      split; [done|]. right. eexists code, _, id, p.
      simpl. rewrite lookup_insert_eq. done.
    + intros [= <- <-] Hin.
      apply send_each_open in Hin as (Ho & id & p & Hp & Hws).
      split; [done|]. right. eexists code, _, id, p.
      simpl. rewrite lookup_insert_eq. done.
    + intros [= <- <-] Hin.
      apply broadcast_open in Hin as (Ho & r0 & id & p & Hr0 & Hp & Hws).
      split; [done|]. right. by exists code, r0, id, p.
    + by intros [= <- <-] ?%elem_of_nil.
    + by intros [= <- <-] ?%elem_of_nil.
  - unfold on_close.
    destruct (bound_room w c) as [[[code pid] r]|] eqn:Hb;
      [|by intros [= <- <-] ?%elem_of_nil].
    rewrite broadcast_all. simpl. rewrite lookup_insert_eq. simpl.
    destruct (Obj.keys (Obj.del pid (players r))) as [|newHost rest] eqn:Hk.
    + intros [= <- <-] Hin.
      rewrite (send_each_no_keys _ _ _ Hk) in Hin. by apply elem_of_nil in Hin.
    + assert (forall f,
                (c', m) ∈ send_each e (Obj.del pid (players r)) f ->
                forall h,
                  is_open e c' = true
                  /\ ((exists m0, Close c = Message c' m0)
                      \/ exists code0 r' id p,
                           Some code = Some code0
                           /\ <[code := set_host h (leave_room pid r)]>
                                (rooms w) !! code0 = Some r'
                           /\ (id, p) ∈ Obj.entries (players r') /\ ws p = c')) as Hmem.
      { intros f (Ho & id & p & Hp & Hws)%send_each_open h. split; [done|].
        right. exists code, (set_host h (leave_room pid r)), id, p.
        by rewrite lookup_insert_eq. }
      destruct (String.eqb _ _); intros [= <- <-] Hin; simpl.
      * apply elem_of_app in Hin as [Hin|Hin]; by apply (Hmem _ Hin newHost).
      * replace (leave_room pid r)
          with (set_host (host r) (leave_room pid r)) by done.
        by apply (Hmem _ Hin (host r)).
  - unfold on_timeout, advanceLevel. destruct (timers w) as [|c rest];
      [by intros [= <- <-] ?%elem_of_nil|].
    simpl.
    change (session_of
              {| rooms := rooms w; sessions := sessions w; timers := rest;
                 closed := closed w |} c) with (session_of w c).
    set (code := room_key (session_of w c)).
    destruct (rooms w !! code) as [r|] eqn:Hr;
      [|by intros [= <- <-] ?%elem_of_nil].
    destruct (20 <? _)%Z; intros [= <- <-] Hin;
      apply send_each_open in Hin as (Ho & id & p & Hp & Hws);
      (split; [done|]); right; eexists code, _, id, p; simpl;
      rewrite lookup_insert_eq; done.
Qed.

Lemma frames_go_to_open_members_witness :
  is_open aaaa 2 = true
  /\ ((exists m0, Message 1 (revive_player "B") = Message 2 m0)
      \/ exists code r' id p,
           target_room aaaa (world_after duo_dead)
             (Message 1 (revive_player "B")) = Some code
           /\ rooms (world_after (duo_dead ++ [ from 1 (revive_player "B") ]))
              !! code = Some r'
           /\ (id, p) ∈ Obj.entries (players r') /\ ws p = 2).
Proof.
  apply (frames_go_to_open_members aaaa (Message 1 (revive_player "B"))
           (world_after duo_dead)
           (world_after (duo_dead ++ [ from 1 (revive_player "B") ]))
           (last_out (duo_dead ++ [ from 1 (revive_player "B") ]) init)
           2 (player_revived "B" "A" (VNum 3) (VNum 4))).
  - vm_compute. reflexivity.
  - vm_compute. right. left.
Defined.

(** ** Relaying positions *)

(** X6: player_position and lobby_position of a bound session change
    nothing; the position is handed on as it came, under the sender's id, to
    exactly the open sockets of the room's players other than the sender's
    own socket. *)
Theorem relay_spec e c x y w code pid r :
  bound_room w c = Some (code, pid, r) ->
  (exists out,
     on_message e c (player_position x y) w = Returns w out
     /\ forall c' m',
          (c', m') ∈ out <->
          m' = player_moved pid x y /\ is_open e c' = true /\ c' <> c
          /\ exists p, p ∈ Obj.values (players r) /\ ws p = c')
  /\ (exists out,
        on_message e c (lobby_position x y) w = Returns w out
        /\ forall c' m',
             (c', m') ∈ out <->
             m' = lobby_player_moved pid x y /\ is_open e c' = true
             /\ c' <> c
             /\ exists p, p ∈ Obj.values (players r) /\ ws p = c').
Proof.
  intros Hb. pose proof Hb as (_ & _ & Hr)%bound_room_Some.
  simpl. unfold on_player_position, on_lobby_position. rewrite Hb.
  split; (eexists; split; [reflexivity|]); intros c' m';
    rewrite broadcast_iff; rewrite Hr.
  all: split;
    [ intros (-> & Ho & Hex & r0 & p & [= <-] & Hp & Hws);
      split; [done|]; split; [done|]; split; [by intros -> | eauto]
    | intros (-> & Ho & Hne & p & Hp & Hws);
      split; [done|]; split; [done|]; split; [by intros [= ->] | eauto] ].
Qed.

Lemma relay_spec_witness :
  exists out,
    on_message aaaa 1 (player_position (VNum 5) (VNum 6))
      (world_after duo_match) = Returns (world_after duo_match) out
    /\ forall c' m',
         (c', m') ∈ out <->
         m' = player_moved "A" (VNum 5) (VNum 6) /\ is_open aaaa c' = true
         /\ c' <> 1
         /\ exists p,
              p ∈ Obj.values (players (the_room "AAAA" duo_match))
              /\ ws p = c'.
Proof.
  apply (relay_spec aaaa 1 (VNum 5) (VNum 6) (world_after duo_match) "AAAA"
           "A" (the_room "AAAA" duo_match)).
  vm_compute. reflexivity.
Defined.

(** ** Handlers that always return *)



(** ** The level timer *)

(** X15: a timer that fires is used up.  When the room its session is bound
    to at that moment is not in the registry, nothing else happens.
    Otherwise that room's level goes up by one, its finished set and its
    death placeholders are emptied and every player is alive, while roster
    ids, host, ready set and win table stay; below level 20 the match goes
    on and every player is sent next_level with the new level, from level
    20 on the room is no longer started and every player is sent game_over,
    both with the win table. *)
Theorem timeout_spec e w c rest :
  timers w = c :: rest ->
  match rooms w !! room_key (session_of w c) with
  | None => on_timeout e w = Returns (pop_timer w) []
  | Some r =>
      exists r',
        on_timeout e w
        = Returns (set_room (room_key (session_of w c)) r' (pop_timer w))
            (send_each e (players r')
               (fun _ =>
                  if (current_level r <? 20)%Z
                  then next_level (current_level r + 1)%Z (level_wins r)
                  else game_over (level_wins r)))
        /\ timers (pop_timer w) = rest
        /\ current_level r' = (current_level r + 1)%Z
        /\ started r' = (if (current_level r <? 20)%Z then started r else false)
        /\ finished_players r' = ∅
        /\ death_placeholders r' = []
        /\ (forall id p', Obj.get id (players r') = Some p' -> alive p' = true)
        /\ Obj.keys (players r') = Obj.keys (players r)
        /\ host r' = host r
        /\ ready_players r' = ready_players r
        /\ level_wins r' = level_wins r
  end.
Proof.
  intros Ht. unfold on_timeout, advanceLevel, pop_timer. rewrite Ht. simpl.
  change (session_of
            {| rooms := rooms w; sessions := sessions w; timers := rest;
               closed := closed w |} c) with (session_of w c).
  destruct (rooms w !! room_key (session_of w c)) as [r|] eqn:Hr; [|done].
  assert (forall id p',
            Obj.get id (Obj.map_values (set_alive true) (players r)) = Some p'
            -> alive p' = true) as Halive.
  { intros id p'. rewrite ObjFacts.get_map_values.
    destruct (Obj.get id (players r)); [|done]. by intros [= <-]. }
  destruct (Z.ltb_spec 20 (current_level r + 1));
    destruct (Z.ltb_spec (current_level r) 20); try lia.
  - exists (set_started false (next_room r)). split; [reflexivity|]. simpl.
    by rewrite ObjFacts.keys_map_values.
  - exists (next_room r). split; [reflexivity|]. simpl.
    by rewrite ObjFacts.keys_map_values.
Qed.

Lemma timeout_spec_witness :
  exists r',
    on_timeout aaaa (world_after finished_once)
    = Returns (set_room "AAAA" r' (pop_timer (world_after finished_once)))
        (send_each aaaa (players r')
           (fun _ => next_level 2%Z [("A", WNum 1)]))
    /\ timers (pop_timer (world_after finished_once)) = []
    /\ current_level r' = 2%Z
    /\ started r' = true
    /\ finished_players r' = ∅
    /\ death_placeholders r' = []
    /\ (forall id p', Obj.get id (players r') = Some p' -> alive p' = true)
    /\ Obj.keys (players r') = ["A"]
    /\ host r' = "A"
    /\ ready_players r' = {["A"]}
    /\ level_wins r' = [("A", WNum 1)].
Proof.
  pose proof (timeout_spec aaaa (world_after finished_once) 1 []) as H.
  vm_compute in H. vm_compute. apply H. reflexivity.
Defined.

(** ** player_ready and player_died *)

(** X18: player_ready, with a ready field, of a session whose id is a key
    of its room's roster stores the flag as it came, puts the id into the
    ready set when the flag is truthy and takes it out otherwise, leaves
    every other player and the roster ids as they are, and sends every
    player, the sender included, the update with the size of the ready set
    and of the roster after the change.  (Of a frame without the field the
    handler reads [msg.ready] through the prototype of the parsed frame.) *)
Theorem player_ready_spec e c v w code pid r p :
  bound_room w c = Some (code, pid, r) ->
  Obj.get pid (players r) = Some p ->
  v <> VUndefined ->
  exists r' n total,
    on_message e c (player_ready v) w
    = Returns (set_room code r' w)
        (send_each e (players r')
           (fun _ => player_ready_update pid v n total))
    /\ n = size (ready_players r')
    /\ total = length (Obj.keys (players r'))
    /\ (pid ∈ ready_players r' <-> truthy v = true)
    /\ (forall id, id <> pid ->
          (id ∈ ready_players r' <-> id ∈ ready_players r))
    /\ Obj.get pid (players r') = Some (set_ready v p)
    /\ (forall id, id <> pid ->
          Obj.get id (players r') = Obj.get id (players r))
    /\ Obj.keys (players r') = Obj.keys (players r).
Proof.
  intros Hb Hp _.
  pose proof Hb as (_ & _ & Hr)%bound_room_Some.
  pose proof (ObjFacts.get_visible _ _ _ Hp) as Hvis.
  set (rp := if truthy v then {[pid]} ∪ ready_players r
             else ready_players r ∖ {[pid]}).
  set (r' := {| host := host r;
                players := Obj.set pid (set_ready v p) (players r);
                started := started r;
                current_level := current_level r;
                level_wins := level_wins r;
                ready_players := rp;
                finished_players := finished_players r;
                death_placeholders := death_placeholders r |}).
  exists r', (size (ready_players r')), (length (Obj.keys (players r'))).
  split.
  { simpl. unfold on_player_ready.
    rewrite Hb, (write_player_own _ _ _ _ Hp), broadcast_all. simpl.
    by rewrite lookup_insert_eq. }
  split; [done|]. split; [done|]. simpl. unfold rp.
  assert (pid ∈ Obj.keys (players r)) as Hin
    by (apply ObjFacts.get_is_Some; eauto).
  split.
  { destruct (truthy v).
    - rewrite elem_of_union, elem_of_singleton. intuition.
    - rewrite elem_of_difference, elem_of_singleton. intuition congruence. }
  split.
  { intros id Hne. destruct (truthy v).
    - rewrite elem_of_union, elem_of_singleton. intuition.
    - rewrite elem_of_difference, elem_of_singleton. intuition. }
  split; [by apply ObjFacts.get_set_eq|].
  split; [intros id Hne; by apply ObjFacts.get_set_ne|].
  by apply ObjFacts.keys_set_old.
Qed.

Lemma player_ready_spec_witness :
  exists r' n total,
    on_message aaaa 1 (player_ready (VNum 1)) (world_after solo_room)
    = Returns (set_room "AAAA" r' (world_after solo_room))
        (send_each aaaa (players r')
           (fun _ => player_ready_update "A" (VNum 1) n total))
    /\ n = size (ready_players r')
    /\ total = length (Obj.keys (players r'))
    /\ ("A" ∈ ready_players r' <-> truthy (VNum 1) = true)
    /\ (forall id, id <> "A" ->
          (id ∈ ready_players r'
           <-> id ∈ ready_players (the_room "AAAA" solo_room)))
    /\ Obj.get "A" (players r')
       = Some (set_ready (VNum 1) (new_player 1 "A" (VStr "#4dff7c")))
    /\ (forall id, id <> "A" ->
          Obj.get id (players r')
          = Obj.get id (players (the_room "AAAA" solo_room)))
    /\ Obj.keys (players r')
       = Obj.keys (players (the_room "AAAA" solo_room)).
Proof.
  apply (player_ready_spec aaaa 1 (VNum 1) (world_after solo_room) "AAAA" "A"
           (the_room "AAAA" solo_room)).
  - vm_compute. reflexivity.
  - vm_compute. reflexivity.
  - discriminate.
Defined.

(** X19: player_died of a player of its room marks that player dead and
    records the reported position as its placeholder, whatever the values
    are; the other players are untouched.  The death is announced to
    exactly the open sockets of the room's players other than the sender's
    socket, and the sender's socket, when open, gets you_died and nothing
    else. *)
Theorem player_died_spec e c x y w code pid r p :
  bound_room w c = Some (code, pid, r) ->
  Obj.get pid (players r) = Some p ->
  exists r' out,
    on_message e c (player_died x y) w = Returns (set_room code r' w) out
    /\ Obj.get pid (players r') = Some (set_alive false p)
    /\ Obj.get pid (death_placeholders r') = Some (x, y)
    /\ (forall id, id <> pid ->
          Obj.get id (players r') = Obj.get id (players r)
          /\ Obj.get id (death_placeholders r')
             = Obj.get id (death_placeholders r))
    /\ (forall c' m',
          (c', m') ∈ out <->
          is_open e c' = true
          /\ ((c' = c /\ m' = you_died x y)
              \/ (c' <> c /\ m' = out_player_died pid x y
                  /\ exists q, q ∈ Obj.values (players r') /\ ws q = c'))).
Proof.
  intros Hb Hp. simpl. unfold on_player_died.
  rewrite Hb, (write_player_own _ _ _ _ Hp).
  pose proof (ObjFacts.get_visible _ _ _ Hp) as Hvis.
  eexists _, _. split; [reflexivity|]. simpl.
  split; [by apply ObjFacts.get_set_eq|].
  split; [by apply ObjFacts.get_set_eq|].
  split; [intros id Hne; by rewrite !ObjFacts.get_set_ne|].
  intros c' m'. rewrite elem_of_app, broadcast_iff.
  simpl. rewrite lookup_insert_eq. split.
  - intros [(-> & Ho & Hex & r0 & q & [= <-] & Hq & Hws)
           |(-> & -> & Ho)%sendTo_open].
    + split; [done|]. right. split; [by intros ->|]. split; [done|]. eauto.
    + split; [done|]. by left.
  - intros (Ho & [[-> ->]|(Hne & -> & q & Hq & Hws)]).
    + right. unfold sendTo. rewrite Ho. left.
    + left. split; [done|]. split; [done|].
      split; [by intros [= ->]|]. eauto.
Qed.

Lemma player_died_spec_witness :
  exists r' out,
    on_message aaaa 2 (player_died (VNum 3) (VNum 4)) (world_after duo_match)
    = Returns (set_room "AAAA" r' (world_after duo_match)) out
    /\ Obj.get "B" (players r')
       = Some (set_alive false (set_ready (VBool true) player_b))
    /\ Obj.get "B" (death_placeholders r') = Some (VNum 3, VNum 4)
    /\ (forall id, id <> "B" ->
          Obj.get id (players r')
          = Obj.get id (players (the_room "AAAA" duo_match))
          /\ Obj.get id (death_placeholders r')
             = Obj.get id (death_placeholders (the_room "AAAA" duo_match)))
    /\ (forall c' m',
          (c', m') ∈ out <->
          is_open aaaa c' = true
          /\ ((c' = 2 /\ m' = you_died (VNum 3) (VNum 4))
              \/ (c' <> 2 /\ m' = out_player_died "B" (VNum 3) (VNum 4)
                  /\ exists q, q ∈ Obj.values (players r') /\ ws q = c'))).
Proof.
  apply (player_died_spec aaaa 2 (VNum 3) (VNum 4) (world_after duo_match)
           "AAAA" "B" (the_room "AAAA" duo_match)); vm_compute; reflexivity.
Defined.

(** The ready set can outgrow the roster: a session that a refused join_room
    has renamed to constructor is let through by line 170, and its id goes
    into the ready set beside the one player of the room. *)
Example ready_set_outgrows_roster :
  option_map (fun r => (size (ready_players r), Obj.keys (players r)))
    (room_after "AAAA"
       (solo_lobby
        ++ [ from 1 (join_room (Some "ZZZZ") (Some "constructor") VUndefined);
             from 1 (player_ready (VBool true)) ]))
  = Some (2, ["A"]).
Proof. vm_compute. reflexivity. Qed.

(** ** The id of a joiner and the target of a revival, in general *)

Lemma slot_falsy_names k (ps : Obj.t player) :
  k ∉ Obj.keys ps -> k ∉ inherited_names ->
  slot_truthy (players_at k ps) = false.
Proof.
  intros Hk Hi. destruct (slot_truthy (players_at k ps)) eqn:Ht; [|done].
  apply slot_truthy_names in Ht as [?|?]; done.
Qed.

(** X11: the loop of join_room always ends, with an id that is no key of
    the roster.  It is the requested name when that is neither a key nor a
    name the roster inherits ([__proto__], the functions of
    [Object.prototype], the fields of a player), and for a requested name
    that is a key it is the name with the smallest suffix 1, 2, ... that is
    neither. *)
Theorem join_room_assigns_free_id (ps : Obj.t player) (requested : string) :
  exists id,
    unique_name (S (length ps + length inherited_names)) ps requested
      requested 1 = Some id
    /\ (id ∉ Obj.keys ps)
    /\ id <> "__proto__"
    /\ (requested ∉ Obj.keys ps -> requested ∉ inherited_names ->
        id = requested)
    /\ (requested ∈ Obj.keys ps ->
        exists k, 1 <= k /\ id = (requested +:+ pretty k) /\
          forall j, 1 <= j < k ->
            (requested +:+ pretty j) ∈ Obj.keys ps
            \/ (requested +:+ pretty j) ∈ inherited_names).
Proof.
  destruct (unique_name_spec ps requested)
    as (id & Hid & _ & Hfree%ObjFacts.get_None & Hvis%ObjFacts.hidden_false
        & Hsame & Hnext).
  exists id. do 3 (split; [done|]). split.
  - intros Hk Hi. by apply Hsame, slot_falsy_names.
  - intros Hk. destruct Hnext as (k & Hle & -> & Hall).
    { destruct (slot_truthy (players_at requested ps)) eqn:Ht; [done|].
      apply slot_falsy_free in Ht as [Hg%ObjFacts.get_None _]. done. }
    exists k. do 2 (split; [done|]).
    intros j Hj. by apply slot_truthy_names, Hall.
Qed.

Lemma join_room_assigns_free_id_witness :
  exists id,
    unique_name 21 (players (the_room "AAAA" solo_room)) "A" "A" 1 = Some id
    /\ (id ∉ Obj.keys (players (the_room "AAAA" solo_room)))
    /\ id <> "__proto__"
    /\ ("A" ∉ Obj.keys (players (the_room "AAAA" solo_room)) ->
        "A" ∉ inherited_names -> id = "A")
    /\ ("A" ∈ Obj.keys (players (the_room "AAAA" solo_room)) ->
        exists k, 1 <= k /\ id = ("A" +:+ pretty k) /\
          forall j, 1 <= j < k ->
            ("A" +:+ pretty j) ∈ Obj.keys (players (the_room "AAAA" solo_room))
            \/ ("A" +:+ pretty j) ∈ inherited_names).
Proof.
  exact (join_room_assigns_free_id (players (the_room "AAAA" solo_room)) "A").
Defined.

(** X12: revive_player of a session bound to a live room.  A target with a
    placeholder and a roster entry of its own is marked alive and loses the
    placeholder, no other entry changes, and every player is sent
    player_revived with the reviver's id and the stored position.  A target
    without a placeholder of its own is ignored, nothing sent and nothing
    changed, provided its name is none of those an object of the server can
    inherit ([__proto__], the functions of [Object.prototype], the fields of
    a player), nor x or y once a position has been assigned through
    [__proto__]. *)
Theorem revive_player_spec e c w code pid r t :
  bound_room w c = Some (code, pid, r) ->
  (forall pos p,
     Obj.get t (death_placeholders r) = Some pos ->
     Obj.get t (players r) = Some p ->
     exists r',
       on_message e c (revive_player t) w
       = Returns (set_room code r' w)
           (send_each e (players r')
              (fun _ => player_revived t pid (fst pos) (snd pos)))
       /\ Obj.get t (death_placeholders r') = None
       /\ Obj.get t (players r') = Some (set_alive true p)
       /\ Obj.keys (players r') = Obj.keys (players r)
       /\ (forall id, id <> t ->
             Obj.get id (players r') = Obj.get id (players r)
             /\ Obj.get id (death_placeholders r')
                = Obj.get id (death_placeholders r)))
  /\ (Obj.get t (death_placeholders r) = None ->
      t ∉ inherited_names ->
      Obj.proto (death_placeholders r) = None \/ (t <> "x" /\ t <> "y") ->
      on_message e c (revive_player t) w = Returns w []).
Proof.
  intros Hb. split.
  - intros pos p Hpos Hp.
    destruct (revive_player_own e c w code pid r t pos p Hb Hpos Hp)
      as (r' & Hret & Hd & Hg & Hk & ->).
    eexists. split; [exact Hret|]. do 3 (split; [done|]).
    intros id Hne. simpl.
    by rewrite ObjFacts.get_set_ne, ObjFacts.get_del_ne.
  - intros Hnone Hin Hxy.
    assert (Obj.hidden t = false) as Hvis.
    { apply ObjFacts.hidden_false. intros ->. apply Hin. left. }
    assert (is_function_name t = false) as Hfn.
    { unfold is_function_name. apply bool_decide_eq_false_2. intros Hf.
      apply Hin. right. apply elem_of_app. by left. }
    apply (revive_player_absent e c w code pid r t Hb).
    unfold placeholder_at. rewrite Hnone, Hvis, Hfn. simpl.
    destruct (Obj.proto (death_placeholders r)) as [pos|]; [|done].
    destruct Hxy as [?|[Hx Hy]]; [done|].
    by rewrite (ObjFacts.eqb_ne _ _ Hx), (ObjFacts.eqb_ne _ _ Hy).
Qed.

Lemma revive_player_spec_witness :
  on_message aaaa 1 (revive_player "A") (world_after duo_dead)
  = Returns (world_after duo_dead) [].
Proof.
  destruct (revive_player_spec aaaa 1 (world_after duo_dead) "AAAA" "A"
              (the_room "AAAA" duo_dead) "A") as [_ H].
  - vm_compute. reflexivity.
  - apply H.
    + vm_compute. reflexivity.
    + apply (bool_decide_eq_false_1 _). vm_compute. reflexivity.
    + left. vm_compute. reflexivity.
Defined.
